(** * Trail recommendation service: the pipeline of [main.py]

    A shallow embedding of the functions of [main.py] and the properties of
    its specification.

    - Python [str] values are lists of Unicode code points ([str]); the
      string methods the source calls ([startswith], [endswith], [find],
      [rfind], slicing, [strip], [join]) are written out with Python's
      semantics, negative indices included.
    - Values decoded from JSON are the inductive type [json]; subscripting,
      truth value and iteration follow Python, an exception being [None].
    - The two remote services (the generative model and the maps HTTP API)
      are oracles that may depend on the calls issued so far; every function
      that talks to them runs in the monad [M], which threads the log of the
      calls and can raise.
    - What [print] writes is not modelled; that it can fail is.  The
      console is taken to encode to UTF-8, where the one text [print]
      cannot write is a text with a lone surrogate.  The texts of the
      generative model are well-formed (a protobuf string holds no lone
      surrogate) and always print; a value decoded from JSON or handed in
      by a caller may hold one (the escape [\ud800] decodes to it), and a
      [print] of it inside a [try] leads to the handler.  Where the
      handler returns what the interrupted branch would have returned (the
      lines that report a status other than ["OK"]), nothing changes and
      the [print] is left out. *)

From Stdlib Require Import List ZArith NArith QArith Lia Bool String Ascii.
Import ListNotations.

Local Open Scope list_scope.

(** ** Python strings *)

Module PyStr.

Definition str := list N.

(** A source literal, as code points. *)
Definition py (s : string) : str :=
  map N_of_ascii (list_ascii_of_string s).

Fixpoint eqb (a b : str) : bool :=
  match a, b with
  | [], [] => true
  | x :: a', y :: b' => N.eqb x y && eqb a' b'
  | _, _ => false
  end.

(** [len(s)] *)
Definition len {A} (s : list A) : Z := Z.of_nat (List.length s).

(** [s.startswith(p)] *)
Fixpoint startswith (s p : str) : bool :=
  match p, s with
  | [], _ => true
  | _ :: _, [] => false
  | y :: p', x :: s' => N.eqb x y && startswith s' p'
  end.

(** [s.endswith(p)] *)
Definition endswith (s p : str) : bool := startswith (rev s) (rev p).

(** How Python clamps a slice bound [i] on a sequence of length [n]. *)
Definition slice_bound (n i : Z) : Z :=
  if (i <? 0)%Z then Z.max 0 (n + i) else Z.min i n.

(** [s[lo:hi]], an omitted bound being [None]. *)
Definition slice {A} (s : list A) (lo hi : option Z) : list A :=
  let n := len s in
  let a := match lo with None => 0%Z | Some i => slice_bound n i end in
  let b := match hi with None => n | Some j => slice_bound n j end in
  firstn (Z.to_nat (b - a)) (skipn (Z.to_nat a) s).

(** [s[i]] for an integer [i]; [None] is [IndexError]. *)
Definition index {A} (s : list A) (i : Z) : option A :=
  let n := len s in
  let j := if (i <? 0)%Z then (i + n)%Z else i in
  if (0 <=? j)%Z && (j <? n)%Z then nth_error s (Z.to_nat j) else None.

(** [s.find(sub)], searching from offset [i] of the original string. *)
Fixpoint find_from (sub s : str) (i : Z) : Z :=
  if startswith s sub then i
  else match s with
       | [] => (-1)%Z
       | _ :: s' => find_from sub s' (i + 1)%Z
       end.

Definition find (s sub : str) : Z := find_from sub s 0%Z.

(** [s.rfind(sub)]: the highest index at which [sub] occurs. *)
Fixpoint rfind_from (sub s : str) (i : Z) : Z :=
  let later := match s with
               | [] => (-1)%Z
               | _ :: s' => rfind_from sub s' (i + 1)%Z
               end in
  if (later =? -1)%Z then (if startswith s sub then i else (-1)%Z) else later.

Definition rfind (s sub : str) : Z := rfind_from sub s 0%Z.

(** [c.isspace()] for one code point: the characters CPython treats as
    whitespace. *)
Definition isspace (c : N) : bool :=
  ((9 <=? c) && (c <=? 13) || (28 <=? c) && (c <=? 32)
   || (c =? 133) || (c =? 160) || (c =? 5760)
   || (8192 <=? c) && (c <=? 8202)
   || (c =? 8232) || (c =? 8233) || (c =? 8239) || (c =? 8287)
   || (c =? 12288))%N.

Fixpoint lstrip (s : str) : str :=
  match s with
  | [] => []
  | c :: s' => if isspace c then lstrip s' else s
  end.

Definition rstrip (s : str) : str := rev (lstrip (rev s)).

(** [s.strip()] *)
Definition strip (s : str) : str := rstrip (lstrip s).

(** A surrogate code point, U+D800 to U+DFFF. *)
Definition surrogate (c : N) : bool := ((55296 <=? c) && (c <=? 57343))%N.

(** [print(s)] succeeds: no code point of [s] is a surrogate. *)
Definition printable (s : str) : bool :=
  forallb (fun c => negb (surrogate c)) s.

(** [sep.join(parts)] *)
Fixpoint join (sep : str) (parts : list str) : str :=
  match parts with
  | [] => []
  | [p] => p
  | p :: rest => p ++ sep ++ join sep rest
  end.

End PyStr.

Import PyStr.

(** ** The response extractor *)

Definition fence_json : str := Eval cbv in py "```json".
Definition fence : str := Eval cbv in py "```".
Definition lbrace : str := Eval cbv in py "{".
Definition rbrace : str := Eval cbv in py "}".

(** [clean_json_response(text)] *)
Definition clean_json_response (text : str) : str :=
  let text := if startswith text fence_json
              then slice text (Some 7%Z) None else text in
  let text := if startswith text fence
              then slice text (Some 3%Z) None else text in
  let text := if endswith text fence
              then slice text None (Some (-3)%Z) else text in
  let start := find text lbrace in
  let end_ := (rfind text rbrace + 1)%Z in
  let text := if negb (start =? -1)%Z && negb (end_ =? 0)%Z
              then slice text (Some start) (Some end_) else text in
  strip text.

(** ** Values decoded from JSON *)

(** A Python value as [json.loads] and [Response.json()] build it.  A
    [dict] is its list of items, a key being looked up from the front;
    numbers are carried as rationals and are never computed with. *)
#[warnings="-register-all"]
Inductive json : Type :=
| JNull
| JBool (b : bool)
| JNum (q : Q)
| JStr (s : str)
| JArr (items : list json)
| JObj (items : list (str * json)).

Fixpoint assoc (k : str) (items : list (str * json)) : option json :=
  match items with
  | [] => None
  | (k', v) :: rest => if eqb k k' then Some v else assoc k rest
  end.

(** [v[k]] for a string key: [KeyError] on a missing key and [TypeError] on
    a value that is not a dict are both [None]. *)
Definition getitem (v : json) (k : str) : option json :=
  match v with
  | JObj items => assoc k items
  | _ => None
  end.

(** [v[i]] for an integer: lists and strings are indexed, a dict decoded
    from JSON has no integer key, anything else is not subscriptable. *)
Definition getindex (v : json) (i : Z) : option json :=
  match v with
  | JArr items => index items i
  | JStr s => option_map (fun c => JStr [c]) (index s i)
  | _ => None
  end.

(** [v == "literal"] *)
Definition is_str (v : json) (s : str) : bool :=
  match v with
  | JStr t => eqb t s
  | _ => false
  end.

(** The truth value of [v], as [if v] and [not v] take it. *)
Definition truthy (v : json) : bool :=
  match v with
  | JNull => false
  | JBool b => b
  | JNum q => negb (Qnum q =? 0)%Z
  | JStr s => negb (eqb s [])
  | JArr items => match items with [] => false | _ => true end
  | JObj items => match items with [] => false | _ => true end
  end.

(** What [for x in v] ranges over; [None] is the [TypeError] of a value
    that is not iterable. *)
Definition iterate (v : json) : option (list json) :=
  match v with
  | JArr items => Some items
  | JStr s => Some (map (fun c => JStr [c]) s)
  | JObj items => Some (map (fun kv => JStr (fst kv)) items)
  | _ => None
  end.

(** [print(f"...{v}...")] succeeds.  A text is written as it is; any
    other value is written with [str], which for a list or a dict is its
    [repr], where a surrogate inside a text is escaped. *)
Definition prints (v : json) : bool :=
  match v with
  | JStr s => printable s
  | _ => true
  end.

(** The elements of a list when all of them are texts, as [sep.join]
    needs them; [None] is its [TypeError]. *)
Fixpoint texts (parts : list json) : option (list str) :=
  match parts with
  | [] => Some []
  | JStr s :: rest =>
      match texts rest with
      | Some ss => Some (s :: ss)
      | None => None
      end
  | _ :: _ => None
  end.

(** A coordinate [[lng, lat]]: longitude first. *)
Definition coordinate : Type := json * json.

(** Exceptions inside a [try] block whose handler returns: the option
    monad, [None] being the raised exception. *)
Definition obind {A B} (o : option A) (f : A -> option B) : option B :=
  match o with
  | Some a => f a
  | None => None
  end.

Notation "'let?' x ':=' o 'in' k" := (obind o (fun x => k))
  (at level 10, x name, o at level 100, k at level 200).

Fixpoint omap_list {A B} (f : A -> option B) (l : list A) : option (list B) :=
  match l with
  | [] => Some []
  | a :: l' =>
      let? b := f a in
      let? bs := omap_list f l' in
      Some (b :: bs)
  end.

(** ** Remote calls *)

(** The prompt of a [model.generate_content] call: which of the three
    templates, and the values substituted into it. *)
Inductive prompt : Type :=
| NamePrompt (distance theme : str) (latitude longitude : Q)
| DetailPrompt (trail_name : str)
| WaypointsPrompt (trail_name : str) (start_location : json).

(** The URL and parameters of a [requests.get] call (the API key, the
    travel mode and the region being constants of the source). *)
Inductive request : Type :=
| ReverseGeocode (latitude longitude : Q)
| VerifyKey
| Geocode (address : json)
| Directions (origin destination : json) (waypoints : str).

Inductive call : Type :=
| Generate (p : prompt)
| Get (r : request).

(** The two services.  [generate_content] yields the text read off the
    response by [response.candidates[0].content.parts[0].text], or [None]
    when the call or that expression raises; [requests_get] yields the body
    decoded by [response.json()], or [None] when the request or the decoding
    raises.  Both see the calls made before.  The text of the model is
    well-formed Unicode. *)
Record providers : Type := {
  generate_content : list call -> prompt -> option str;
  requests_get : list call -> request -> option json
}.

Inductive outcome (A : Type) : Type :=
| Returned (a : A)
| Raised.
Arguments Returned {A} a.
Arguments Raised {A}.

(** A computation that issues calls: from the log so far to an outcome and
    the extended log. *)
Definition M (A : Type) : Type := list call -> outcome A * list call.

Definition ret {A} (a : A) : M A := fun log => (Returned a, log).

Definition raise {A} : M A := fun log => (Raised, log).

Definition bind {A B} (m : M A) (f : A -> M B) : M B :=
  fun log =>
    match m log with
    | (Returned a, log') => f a log'
    | (Raised, log') => (Raised, log')
    end.

Notation "x <- m ;; k" := (bind m (fun x => k))
  (at level 61, m at next level, right associativity).

Definition call_model (W : providers) (p : prompt) : M (option str) :=
  fun log => (Returned (generate_content W log p), log ++ [Generate p]).

Definition call_maps (W : providers) (r : request) : M (option json) :=
  fun log => (Returned (requests_get W log r), log ++ [Get r]).

(** ** The functions of [main.py] *)

Definition sentinel : str := Eval cbv in py "Recommendation failed".
Definition OK : str := Eval cbv in py "OK".
Definition starting_point : str := Eval cbv in py "Starting Point".
Definition pipe : str := Eval cbv in py "|".

Definition k_status : str := Eval cbv in py "status".
Definition k_results : str := Eval cbv in py "results".
Definition k_formatted_address : str := Eval cbv in py "formatted_address".
Definition k_geometry : str := Eval cbv in py "geometry".
Definition k_location : str := Eval cbv in py "location".
Definition k_lng : str := Eval cbv in py "lng".
Definition k_lat : str := Eval cbv in py "lat".
Definition k_routes : str := Eval cbv in py "routes".
Definition k_legs : str := Eval cbv in py "legs".
Definition k_steps : str := Eval cbv in py "steps".
Definition k_start_location : str := Eval cbv in py "start_location".
Definition k_end_location : str := Eval cbv in py "end_location".
Definition k_waypoints : str := Eval cbv in py "waypoints".

(** [class TrailRequest(BaseModel)] *)
Record TrailRequest : Type := {
  distance : str;
  theme : str;
  latitude : Q;
  longitude : Q
}.

(** The two dicts [recommend_trail] returns: [{"error": ...}] and
    [{"route_name": ..., "coordinates": ...}]. *)
Inductive TrailResult : Type :=
| ErrorResult (error : str)
| RouteResult (route_name : str) (coordinates : list coordinate).

(** [[location["lng"], location["lat"]]] *)
Definition lng_lat (location : json) : option coordinate :=
  let? lng := getitem location k_lng in
  let? lat := getitem location k_lat in
  Some (lng, lat).

(** The body of [for step in leg["steps"]] followed by the append of the
    last step's end, for one [leg]. *)
Definition leg_coordinates (leg : json) : option (list coordinate) :=
  let? steps := getitem leg k_steps in
  let? each := iterate steps in
  let? starts :=
    omap_list (fun step =>
                 let? start_location := getitem step k_start_location in
                 lng_lat start_location) each in
  let? steps' := getitem leg k_steps in
  let? last_step := getindex steps' (-1) in
  let? end_location := getitem last_step k_end_location in
  let? final := lng_lat end_location in
  Some (starts ++ [final]).

(** The [try] block of [get_directions_coordinates_from_waypoints] once
    [data] is there: [Some] is the value of its [return], [None] an
    exception on the way. *)
Definition directions_coordinates (data : json)
  : option (list coordinate) :=
  let? status := getitem data k_status in
  if is_str status OK then
    let? routes := getitem data k_routes in
    let? route := getindex routes 0 in
    let? steps := getitem route k_legs in
    let? legs := iterate steps in
    let? per_leg := omap_list leg_coordinates legs in
    Some (List.concat per_leg)
  else Some [].

(** The [try] block of one turn of the loop of
    [get_coordinates_for_waypoints]: [Some c] when the turn appends [c],
    [None] when it leaves the function with [return []], by the [else]
    branch or by the handler. *)
Definition geocoded (data : option json) : option coordinate :=
  let? data := data in
  let? status := getitem data k_status in
  if is_str status OK then
    let? results := getitem data k_results in
    let? first := getindex results 0 in
    let? geometry := getitem first k_geometry in
    let? location := getitem geometry k_location in
    lng_lat location
  else None.

(** The first [try] of [get_trail_waypoints_from_gemini]: the start label
    that goes into the prompt. *)
Definition start_location_of (data : option json) : json :=
  match
    (let? data := data in
     let? status := getitem data k_status in
     if is_str status OK then
       let? results := getitem data k_results in
       let? first := getindex results 0 in
       getitem first k_formatted_address
     else Some (JStr starting_point))
  with
  | Some start_location => start_location
  | None => JStr starting_point
  end.

Section Pipeline.

(** [json.loads]: the decoder of the Python library, [None] when it
    raises. *)
Variable json_loads : str -> option json.

Variable W : providers.

(** [get_trail_name_from_gemini(distance, theme, latitude, longitude)] *)
Definition get_trail_name_from_gemini
    (distance theme : str) (latitude longitude : Q) : M str :=
  response <- call_model W (NamePrompt distance theme latitude longitude) ;;
  match response with
  | Some text => ret (strip text)
  | None => ret sentinel
  end.

(** [get_trail_detail_from_gemini(trail_name)] *)
Definition get_trail_detail_from_gemini (trail_name : str) : M json :=
  response <- call_model W (DetailPrompt trail_name) ;;
  match response with
  | Some raw =>
      let text := clean_json_response raw in
      match json_loads text with
      | Some detail => ret detail
      | None => ret (JObj [])
      end
  | None => ret (JObj [])
  end.

(** [get_trail_waypoints_from_gemini(trail_name, latitude, longitude)].
    The handler of the second [try] reads the text of [response] again
    before it returns: with no text to read (the generation call raised, so
    that [response] is still the HTTP response or is unbound, or the
    response has no candidate text) the handler itself raises. *)
Definition get_trail_waypoints_from_gemini
    (trail_name : str) (latitude longitude : Q) : M json :=
  data <- call_maps W (ReverseGeocode latitude longitude) ;;
  let start_location := start_location_of data in
  response <- call_model W (WaypointsPrompt trail_name start_location) ;;
  match response with
  | Some raw =>
      let text := clean_json_response raw in
      match json_loads text with
      | Some (JObj items) =>
          ret match assoc k_waypoints items with
              | Some waypoints => waypoints
              | None => JArr []
              end
      | Some _ => ret (JArr [])
      | None => ret (JArr [])
      end
  | None => raise
  end.

(** [get_directions_coordinates_from_waypoints(waypoints)], on a list of
    any values.  The parameters of the directions request are built
    outside the second [try]: there ["|".join(middle)] raises on a middle
    waypoint that is not a text.  Inside it, the two lines that announce the
    request are printed before the request is made. *)
Definition get_directions_coordinates_from_waypoints
    (waypoints : list json) : M (list coordinate) :=
  if (len waypoints <? 2)%Z then ret []
  else
    test_data <- call_maps W VerifyKey ;;
    match (let? test_data := test_data in getitem test_data k_status) with
    | None => ret []
    | Some status =>
        if negb (is_str status OK) then ret []
        else
          match index waypoints 0, index waypoints (-1) with
          | Some origin, Some destination =>
              let middle := slice waypoints (Some 1%Z) (Some (-1)%Z) in
              match (match middle with
                     | [] => Some []
                     | _ :: _ => option_map (join pipe) (texts middle)
                     end) with
              | None => raise
              | Some via =>
                  if prints origin && prints destination
                     && forallb prints middle
                  then
                    data <- call_maps W (Directions origin destination via) ;;
                    match (let? data := data in directions_coordinates data)
                    with
                    | Some coordinates => ret coordinates
                    | None => ret []
                    end
                  else ret []
              end
          | _, _ => raise
          end
    end.

(** The loop of [get_coordinates_for_waypoints] over the waypoints still
    to visit, [coordinates] being the list built so far.  Each turn first
    prints the waypoint, inside the [try]: when that fails the handler
    returns the empty list and no request is made. *)
Fixpoint geocode_each (todo : list json) (coordinates : list coordinate)
  : M (list coordinate) :=
  match todo with
  | [] => ret coordinates
  | waypoint :: todo' =>
      if prints waypoint then
        data <- call_maps W (Geocode waypoint) ;;
        match geocoded data with
        | Some c => geocode_each todo' (coordinates ++ [c])
        | None => ret []
        end
      else ret []
  end.

(** [get_coordinates_for_waypoints(waypoints)], on whatever value the
    waypoint stage hands over. *)
Definition get_coordinates_for_waypoints (waypoints : json)
  : M (list coordinate) :=
  if negb (truthy waypoints) then ret []
  else
    match iterate waypoints with
    | Some todo => geocode_each todo []
    | None => raise
    end.

Definition error_message : str := Eval cbv in py "Gemini recommendation failed".

(** [recommend_trail(req)] *)
Definition recommend_trail (req : TrailRequest) : M TrailResult :=
  trail_name <- get_trail_name_from_gemini
                  (distance req) (theme req) (latitude req) (longitude req) ;;
  if eqb trail_name sentinel then ret (ErrorResult error_message)
  else
    detail <- get_trail_detail_from_gemini trail_name ;;
    waypoints <- get_trail_waypoints_from_gemini
                   trail_name (latitude req) (longitude req) ;;
    coords <- get_coordinates_for_waypoints waypoints ;;
    ret (RouteResult trail_name coords).

End Pipeline.

(** ** Fences and spans, as the specification words them *)

Definition lbrace_char : N := 123%N.
Definition rbrace_char : N := 125%N.

(** [r] is [s] without the leading [p], when [s] begins with [p], and is
    [s] otherwise. *)
Inductive without_leading (p s : str) : str -> Prop :=
| leading_removed r : s = p ++ r -> without_leading p s r
| leading_absent : (forall r, s <> p ++ r) -> without_leading p s s.

(** [r] is [s] without the trailing [p], when [s] ends with [p], and is
    [s] otherwise. *)
Inductive without_trailing (p s : str) : str -> Prop :=
| trailing_removed r : s = r ++ p -> without_trailing p s r
| trailing_absent : (forall r, s <> r ++ p) -> without_trailing p s s.

(** [s] holds an opening brace followed, somewhere later, by a closing
    brace: the least a text containing a JSON object satisfies. *)
Definition has_span (s : str) : Prop :=
  exists pre mid post, s = pre ++ lbrace_char :: mid ++ rbrace_char :: post.

(** The fenced payload of the specification's example and its parts. *)
Definition dq : string := String "034"%char EmptyString.
Definition nl : string := String "010"%char EmptyString.

Definition fenced_example : str :=
  Eval cbv in
    py ("```json" ++ nl ++ "{" ++ dq ++ "a" ++ dq ++ ":1}" ++ nl ++ "```")%string.
Definition fenced_example_body : str :=
  Eval cbv in py (dq ++ "a" ++ dq ++ ":1")%string.
Definition fenced_example_object : str :=
  Eval cbv in py ("{" ++ dq ++ "a" ++ dq ++ ":1}")%string.

(** ** The provider responses, as the specification reads them *)

Definition geocode_calls (labels : list json) : list call :=
  map (fun label => Get (Geocode label)) labels.

(** A geocoding answer that failed: the request raised, or the body has
    no [status] equal to ["OK"]. *)
Definition geocode_failed (data : option json) : Prop :=
  data = None
  \/ exists body, data = Some body /\ getitem body k_status <> Some (JStr OK).

(** A geocoding answer that resolved to the point [c], longitude first:
    status ["OK"] and a first result whose [geometry.location] carries the
    two numbers. *)
Definition geocode_resolved (data : option json) (c : coordinate) : Prop :=
  exists body first others geometry location,
    data = Some body
    /\ getitem body k_status = Some (JStr OK)
    /\ getitem body k_results = Some (JArr (first :: others))
    /\ getitem first k_geometry = Some geometry
    /\ getitem geometry k_location = Some location
    /\ getitem location k_lng = Some (fst c)
    /\ getitem location k_lat = Some (snd c).

(** The answer to the key-verification request carries status ["OK"]. *)
Definition key_verified (data : option json) : Prop :=
  exists body, data = Some body /\ getitem body k_status = Some (JStr OK).

(** A point of a directions response. *)
Record Location : Type := { loc_lat : json; loc_lng : json }.

Record Step : Type := { step_start : Location; step_end : Location }.

Definition is_location (v : json) (l : Location) : Prop :=
  getitem v k_lat = Some (loc_lat l) /\ getitem v k_lng = Some (loc_lng l).

Definition is_step (v : json) (s : Step) : Prop :=
  exists a b,
    getitem v k_start_location = Some a /\ is_location a (step_start s)
    /\ getitem v k_end_location = Some b /\ is_location b (step_end s).

Definition is_leg (v : json) (steps : list Step) : Prop :=
  exists items, getitem v k_steps = Some (JArr items)
                /\ Forall2 is_step items steps.

(** [data] is a directions response with success status whose first route
    has the legs [legs], each leg given by its steps. *)
Definition is_route (data : json) (legs : list (list Step)) : Prop :=
  getitem data k_status = Some (JStr OK)
  /\ exists route others items,
       getitem data k_routes = Some (JArr (route :: others))
       /\ getitem route k_legs = Some (JArr items)
       /\ Forall2 is_leg items legs.

(** A point as the service emits it: (longitude, latitude). *)
Definition point (l : Location) : coordinate := (loc_lng l, loc_lat l).

(** The start of every step of a leg, then the end of its last step. *)
Definition leg_path (steps : list Step) : list coordinate :=
  map (fun s => point (step_start s)) steps
  ++ match rev steps with
     | final :: _ => [point (step_end final)]
     | [] => []
     end.

Definition route_path (legs : list (list Step)) : list coordinate :=
  flat_map leg_path legs.

(** The number of steps of the first route of a directions response. *)
Definition step_count (data : json) : option nat :=
  let? routes := getitem data k_routes in
  let? route := getindex routes 0 in
  let? legs := getitem route k_legs in
  let? legs := iterate legs in
  let? counts :=
    omap_list (fun leg =>
                 let? steps := getitem leg k_steps in
                 let? each := iterate steps in
                 Some (List.length each)) legs in
  Some (list_sum counts).

Definition is_directions (c : call) : bool :=
  match c with
  | Get (Directions _ _ _) => true
  | _ => false
  end.

(** ** Stubbed providers

    The end-to-end scenario of the specification: a request for a 2 km
    nature trail from Seoul City Hall, with a model that names the trail,
    describes it and proposes a closed loop of three labels, and a maps
    service that resolves every label and answers a directions request
    with two legs of two steps each. *)

Definition quoted (s : string) : string := (dq ++ s ++ dq)%string.

Definition city_hall : str :=
  Eval cbv in py "Seoul City Hall, Seoul, South Korea".
Definition palace : str :=
  Eval cbv in py "Deoksugung Palace, Seoul, South Korea".
Definition stub_name : str := Eval cbv in py "2km Nature Trail at City Hall".

Definition example_request : TrailRequest :=
  {| distance := py "2km"; theme := py "nature";
     latitude := 375665 # 10000; longitude := 1269780 # 10000 |}.

Definition detail_raw : str :=
  Eval cbv in
    py ("{" ++ quoted "trail_name" ++ ": "
            ++ quoted "2km Nature Trail at City Hall" ++ "}")%string.

Definition detail_value : json :=
  JObj [(py "trail_name", JStr stub_name)].

Definition waypoints_raw : str :=
  Eval cbv in
    py ("```json" ++ nl ++ "{" ++ quoted "waypoints" ++ ": ["
          ++ quoted "Seoul City Hall, Seoul, South Korea" ++ ", "
          ++ quoted "Deoksugung Palace, Seoul, South Korea" ++ ", "
          ++ quoted "Seoul City Hall, Seoul, South Korea" ++ "]}"
          ++ nl ++ "```")%string.

Definition stub_labels : list json :=
  [JStr city_hall; JStr palace; JStr city_hall].

Definition waypoints_value : json := JObj [(k_waypoints, JArr stub_labels)].

(** A decoder that knows the two payloads of the stubbed model. *)
Definition stub_loads (text : str) : option json :=
  if eqb text (clean_json_response waypoints_raw) then Some waypoints_value
  else if eqb text (clean_json_response detail_raw) then Some detail_value
  else None.

Definition location_json (lat lng : Q) : json :=
  JObj [(k_lat, JNum lat); (k_lng, JNum lng)].

Definition geocode_body (address : str) (lat lng : Q) : json :=
  JObj [(k_results,
         JArr [JObj [(k_formatted_address, JStr address);
                     (k_geometry,
                      JObj [(k_location, location_json lat lng)])]]);
        (k_status, JStr OK)].

Definition failure_body (status : string) : json :=
  JObj [(k_results, JArr []); (k_status, JStr (py status))].

Definition step_json (a b : json) : json :=
  JObj [(py "travel_mode", JStr (py "WALKING"));
        (k_start_location, a); (k_end_location, b)].

Definition p0 : json := location_json (375665 # 10000) (1269780 # 10000).
Definition p1 : json := location_json (375660 # 10000) (1269770 # 10000).
Definition p2 : json := location_json (375658 # 10000) (1269752 # 10000).
Definition p3 : json := location_json (375662 # 10000) (1269765 # 10000).

(** Two legs of two steps each: out to the palace and back. *)
Definition directions_body : json :=
  JObj [(k_routes,
         JArr [JObj [(k_legs,
                      JArr [JObj [(k_steps,
                                   JArr [step_json p0 p1; step_json p1 p2])];
                            JObj [(k_steps,
                                   JArr [step_json p2 p3; step_json p3 p0])]
                           ])]]);
        (k_status, JStr OK)].

Definition stub : providers :=
  {| generate_content := fun _ p =>
       match p with
       | NamePrompt _ _ _ _ => Some stub_name
       | DetailPrompt _ => Some detail_raw
       | WaypointsPrompt _ _ => Some waypoints_raw
       end;
     requests_get := fun _ r =>
       match r with
       | ReverseGeocode _ _ =>
           Some (geocode_body city_hall (375665 # 10000) (1269780 # 10000))
       | VerifyKey =>
           Some (geocode_body (py "Seoul Station, Seoul, South Korea")
                   (375547 # 10000) (1269707 # 10000))
       | Geocode address =>
           if is_str address palace
           then Some (geocode_body palace (375658 # 10000) (1269752 # 10000))
           else Some (geocode_body city_hall
                        (375665 # 10000) (1269780 # 10000))
       | Directions _ _ _ => Some directions_body
       end |}.

(** [W] with the naming prompt answered by [answer]. *)
Definition with_name (answer : option str) (W : providers) : providers :=
  {| generate_content := fun log p =>
       match p with
       | NamePrompt _ _ _ _ => answer
       | _ => generate_content W log p
       end;
     requests_get := requests_get W |}.

(** [W] with the label [unknown] not found by the geocoder. *)
Definition with_unknown (unknown : str) (W : providers) : providers :=
  {| generate_content := generate_content W;
     requests_get := fun log r =>
       match r with
       | Geocode address =>
           if is_str address unknown
           then Some (failure_body "ZERO_RESULTS")
           else requests_get W log r
       | _ => requests_get W log r
       end |}.

(** [W] with the key-verification request denied. *)
Definition with_denied_key (W : providers) : providers :=
  {| generate_content := generate_content W;
     requests_get := fun log r =>
       match r with
       | VerifyKey => Some (failure_body "REQUEST_DENIED")
       | _ => requests_get W log r
       end |}.

Definition c_city_hall : coordinate :=
  (JNum (1269780 # 10000), JNum (375665 # 10000)).
Definition c_palace : coordinate :=
  (JNum (1269752 # 10000), JNum (375658 # 10000)).

Definition stub_coordinates : list coordinate :=
  [c_city_hall; c_palace; c_city_hall].

(** [W] with no text coming back for the waypoint prompt. *)
Definition with_no_waypoints (W : providers) : providers :=
  {| generate_content := fun log p =>
       match p with
       | WaypointsPrompt _ _ => None
       | _ => generate_content W log p
       end;
     requests_get := requests_get W |}.

Definition name_prompt (req : TrailRequest) : prompt :=
  NamePrompt (distance req) (theme req) (latitude req) (longitude req).

(** The calls of the stubbed scenario, stage by stage. *)
Definition stub_log1 : list call := [Generate (name_prompt example_request)].

Definition stub_log3 : list call :=
  stub_log1
  ++ [Generate (DetailPrompt stub_name);
      Get (ReverseGeocode (latitude example_request)
             (longitude example_request));
      Generate (WaypointsPrompt stub_name (JStr city_hall))].

Definition stub_log4 : list call := stub_log3 ++ geocode_calls stub_labels.

(** ** The rest of the code: [setup.py] *)

Module Setup.

(** The two variables [setup_environment] reads with [os.environ.get];
    [None] is a variable that is not set. *)
Record environ : Type := {
  GOOGLE_API_KEY : option str;
  GOOGLE_MAPS_API_KEY : option str
}.

(** What the function acts on: the lines still to come on standard input
    and the content of the file [.env], [None] when there is no such
    file.  The file is taken to be writable. *)
Record world : Type := {
  stdin : list str;
  dotenv : option str
}.

(** [not key] *)
Definition unset (key : option str) : bool :=
  match key with
  | None => true
  | Some k => eqb k []
  end.

(** [input(...)]: the next line, or [EOFError] at the end of the input. *)
Definition input (w : world) : outcome str * world :=
  match stdin w with
  | line :: rest => (Returned line, {| stdin := rest; dotenv := dotenv w |})
  | [] => (Raised, w)
  end.

(** [os.environ.get(name)] when the test [not key] fails, a line of input
    otherwise. *)
Definition key_or_input (key : option str) (w : world)
  : outcome str * world :=
  match key with
  | Some k => if unset key then input w else (Returned k, w)
  | None => input w
  end.

Definition line_gemini : str := Eval cbv in py "GOOGLE_API_KEY=".
Definition line_maps : str := Eval cbv in py "GOOGLE_MAPS_API_KEY=".
Definition newline : str := [10%N].

(** [setup_environment()] *)
Definition setup_environment (e : environ) (w : world)
  : outcome unit * world :=
  match key_or_input (GOOGLE_API_KEY e) w with
  | (Raised, w1) => (Raised, w1)
  | (Returned gemini_key, w1) =>
      match key_or_input (GOOGLE_MAPS_API_KEY e) w1 with
      | (Raised, w2) => (Raised, w2)
      | (Returned maps_key, w2) =>
          (Returned tt,
           {| stdin := stdin w2;
              dotenv := Some ((line_gemini ++ gemini_key ++ newline)
                              ++ (line_maps ++ maps_key ++ newline)) |})
      end
  end.

End Setup.

(** ** Further notions for the properties below *)

(** [x] is a contiguous part of [y]. *)
Definition within (x y : str) : Prop := exists a b, y = a ++ x ++ b.

(** A directions answer that failed: the request raised, or the body has
    no [status] equal to ["OK"]. *)
Definition directions_failed (data : option json) : Prop :=
  data = None
  \/ exists body, data = Some body /\ getitem body k_status <> Some (JStr OK).

(** The three shapes the log of the route resolver can take. *)
Definition resolver_log (log log' : list call) : Prop :=
  log' = log
  \/ log' = log ++ [Get VerifyKey]
  \/ exists origin destination via,
       log' = log ++ [Get VerifyKey; Get (Directions origin destination via)].

(** [W'] answers as [W] does, whatever the calls made before, except to
    the detail prompt. *)
Definition same_but_detail (W W' : providers) : Prop :=
  (forall log log' p,
      (forall name, p <> DetailPrompt name) ->
      generate_content W log p = generate_content W' log' p)
  /\ (forall log log' r, requests_get W log r = requests_get W' log' r).

(** [W] with the model and the maps service overridden where [model] and
    [maps] say so. *)
Definition override (model : prompt -> option (option str))
    (maps : request -> option (option json)) (W : providers) : providers :=
  {| generate_content := fun log p =>
       match model p with
       | Some answer => answer
       | None => generate_content W log p
       end;
     requests_get := fun log r =>
       match maps r with
       | Some answer => answer
       | None => requests_get W log r
       end |}.

Definition keep {A B} (_ : A) : option B := None.

Definition on_detail (answer : option str) (p : prompt)
  : option (option str) :=
  match p with DetailPrompt _ => Some answer | _ => None end.

Definition on_waypoints (answer : option str) (p : prompt)
  : option (option str) :=
  match p with WaypointsPrompt _ _ => Some answer | _ => None end.

Definition on_reverse (answer : option json) (r : request)
  : option (option json) :=
  match r with ReverseGeocode _ _ => Some answer | _ => None end.

Definition on_directions (answer : option json) (r : request)
  : option (option json) :=
  match r with Directions _ _ _ => Some answer | _ => None end.

(** A model text whose [waypoints] entry is the number 5, and a decoder
    that knows it. *)
Definition number_raw : str :=
  Eval cbv in py ("{" ++ quoted "waypoints" ++ ": 5}")%string.

Definition number_loads (text : str) : option json :=
  if eqb text number_raw then Some (JObj [(k_waypoints, JNum 5)])
  else stub_loads text.

(** The legs of [directions_body], read as steps. *)
Definition loc (lat lng : Q) : Location :=
  {| loc_lat := JNum lat; loc_lng := JNum lng |}.

Definition stub_legs : list (list Step) :=
  [[{| step_start := loc (375665 # 10000) (1269780 # 10000);
       step_end := loc (375660 # 10000) (1269770 # 10000) |};
    {| step_start := loc (375660 # 10000) (1269770 # 10000);
       step_end := loc (375658 # 10000) (1269752 # 10000) |}];
   [{| step_start := loc (375658 # 10000) (1269752 # 10000);
       step_end := loc (375662 # 10000) (1269765 # 10000) |};
    {| step_start := loc (375662 # 10000) (1269765 # 10000);
       step_end := loc (375665 # 10000) (1269780 # 10000) |}]].

(** A success response whose second leg has no steps. *)
Definition broken_leg : json := JObj [(k_steps, JArr [])].

Definition broken_route : json :=
  JObj [(k_legs,
         JArr [JObj [(k_steps, JArr [step_json p0 p1; step_json p1 p2])];
               broken_leg])].

Definition broken_directions_body : json :=
  JObj [(k_routes, JArr [broken_route]); (k_status, JStr OK)].

(** What the naming stage returns for [req] after the calls [log]. *)
Definition named (W : providers) (req : TrailRequest) (log : list call)
  : str :=
  match generate_content W log (name_prompt req) with
  | Some text => strip text
  | None => sentinel
  end.

(** The four calls that precede the geocoding of the labels. *)
Definition stage_calls (req : TrailRequest) (name : str) (start : json)
  : list call :=
  [Generate (name_prompt req);
   Generate (DetailPrompt name);
   Get (ReverseGeocode (latitude req) (longitude req));
   Generate (WaypointsPrompt name start)].


(** Text labels as the list of values the resolver takes. *)
Definition values (l : list str) : list json := map JStr l.

(** The steps of the first leg of [broken_directions_body]. *)
Definition broken_first_leg : list Step :=
  [{| step_start := loc (375665 # 10000) (1269780 # 10000);
      step_end := loc (375660 # 10000) (1269770 # 10000) |};
   {| step_start := loc (375660 # 10000) (1269770 # 10000);
      step_end := loc (375658 # 10000) (1269752 # 10000) |}].

(** * Properties *)

(** ** Strings *)

Lemma eqb_refl (s : str) : eqb s s = true.
Proof.
  induction s as [|c s IH]; simpl; [reflexivity|].
  now rewrite N.eqb_refl, IH.
Qed.

Lemma eqb_eq (a b : str) : eqb a b = true <-> a = b.
Proof.
  split; [|intros ->; apply eqb_refl].
  revert b; induction a as [|x a IH]; intros [|y b]; simpl; try easy.
  rewrite andb_true_iff, N.eqb_eq. intros [-> H]. now rewrite (IH _ H).
Qed.

Lemma startswith_app (p r : str) : startswith (p ++ r) p = true.
Proof.
  induction p as [|c p IH]; simpl; [now destruct r|].
  now rewrite N.eqb_refl.
Qed.

Lemma startswith_true (s p : str) :
  startswith s p = true -> exists r, s = p ++ r.
Proof.
  revert s; induction p as [|c p IH]; intros s H.
  - now exists s.
  - destruct s as [|x s]; simpl in H; [discriminate|].
    apply andb_true_iff in H as [Hx Hs]. apply N.eqb_eq in Hx as ->.
    destruct (IH _ Hs) as [r ->]. now exists r.
Qed.

Lemma startswith_false (s p : str) :
  startswith s p = false -> forall r, s <> p ++ r.
Proof.
  intros H r ->. now rewrite startswith_app in H.
Qed.

Lemma endswith_app (r q : str) : endswith (r ++ q) q = true.
Proof. unfold endswith. rewrite rev_app_distr. apply startswith_app. Qed.

Lemma endswith_true (s q : str) :
  endswith s q = true -> exists r, s = r ++ q.
Proof.
  unfold endswith. intros H. apply startswith_true in H as [r Hr].
  exists (rev r). apply (f_equal (@rev N)) in Hr.
  now rewrite rev_involutive, rev_app_distr, rev_involutive in Hr.
Qed.

Lemma endswith_false (s q : str) :
  endswith s q = false -> forall r, s <> r ++ q.
Proof.
  intros H r ->. now rewrite endswith_app in H.
Qed.

Lemma len_app {A} (a b : list A) : len (a ++ b) = (len a + len b)%Z.
Proof. unfold len. rewrite length_app. lia. Qed.

Lemma len_cons {A} (x : A) (a : list A) : len (x :: a) = (1 + len a)%Z.
Proof. unfold len. cbn [List.length]. lia. Qed.

Lemma len_nonneg {A} (a : list A) : (0 <= len a)%Z.
Proof. unfold len. lia. Qed.

(** [s[len(pre) : len(pre) + len(m)]] is the middle of [pre ++ m ++ post]. *)
Lemma slice_middle {A} (pre m post : list A) :
  slice (pre ++ m ++ post) (Some (len pre)) (Some (len pre + len m)%Z) = m.
Proof.
  unfold slice, slice_bound. rewrite !len_app.
  pose proof (len_nonneg pre). pose proof (len_nonneg m).
  pose proof (len_nonneg post).
  destruct (Z.ltb_spec (len pre) 0); [lia|].
  destruct (Z.ltb_spec (len pre + len m) 0); [lia|].
  rewrite !Z.min_l by lia.
  replace (len pre + len m - len pre)%Z with (len m) by lia.
  unfold len. rewrite !Nat2Z.id.
  rewrite skipn_app, skipn_all, Nat.sub_diag. simpl.
  rewrite firstn_app, firstn_all, Nat.sub_diag. simpl. apply app_nil_r.
Qed.

(** [s[len(p):]] drops the prefix [p]. *)
Lemma slice_after {A} (p r : list A) :
  slice (p ++ r) (Some (len p)) None = r.
Proof.
  unfold slice, slice_bound. rewrite !len_app.
  pose proof (len_nonneg p). pose proof (len_nonneg r).
  destruct (Z.ltb_spec (len p) 0); [lia|].
  rewrite Z.min_l by lia.
  replace (len p + len r - len p)%Z with (len r) by lia.
  unfold len. rewrite !Nat2Z.id.
  rewrite skipn_app, skipn_all, Nat.sub_diag. simpl. apply firstn_all.
Qed.

(** [s[:-len(q)]] drops the suffix [q], for [q] not empty. *)
Lemma slice_before {A} (r q : list A) :
  q <> [] -> slice (r ++ q) None (Some (- len q)%Z) = r.
Proof.
  intros Hq. unfold slice, slice_bound. rewrite !len_app.
  pose proof (len_nonneg r).
  assert (0 < len q)%Z by (destruct q; [easy|unfold len; simpl; lia]).
  destruct (Z.ltb_spec (- len q) 0); [|lia].
  rewrite Z.max_r by lia.
  replace (len r + len q + - len q - 0)%Z with (len r) by lia.
  unfold len. rewrite Nat2Z.id. simpl.
  rewrite firstn_app, firstn_all, Nat.sub_diag. simpl. apply app_nil_r.
Qed.

Lemma startswith_char (x c : N) (s : str) :
  startswith (x :: s) [c] = N.eqb x c.
Proof. simpl. destruct s; apply andb_true_r. Qed.

Lemma find_from_first (c : N) (pre rest : str) (i : Z) :
  ~ In c pre -> find_from [c] (pre ++ c :: rest) i = (i + len pre)%Z.
Proof.
  revert i; induction pre as [|x pre IH]; intros i Hc.
  - cbn [app find_from]. rewrite startswith_char, N.eqb_refl.
    unfold len; simpl; lia.
  - cbn [app find_from]. rewrite startswith_char.
    destruct (N.eqb_spec x c) as [->|_]; [exfalso; apply Hc; now left|].
    rewrite IH by (intros H; apply Hc; now right).
    rewrite len_cons; lia.
Qed.

Lemma find_from_absent (c : N) (s : str) (i : Z) :
  ~ In c s -> find_from [c] s i = (-1)%Z.
Proof.
  revert i; induction s as [|x s IH]; intros i Hc; [reflexivity|].
  cbn [find_from]. rewrite startswith_char.
  destruct (N.eqb_spec x c) as [->|_]; [exfalso; apply Hc; now left|].
  apply IH. intros H; apply Hc; now right.
Qed.

Lemma rfind_from_absent (c : N) (s : str) (i : Z) :
  ~ In c s -> rfind_from [c] s i = (-1)%Z.
Proof.
  revert i; induction s as [|x s IH]; intros i Hc; [reflexivity|].
  cbn [rfind_from]. rewrite IH by (intros H; apply Hc; now right).
  rewrite startswith_char. simpl.
  destruct (N.eqb_spec x c) as [->|_]; [exfalso; apply Hc; now left|].
  reflexivity.
Qed.

Lemma rfind_from_last (c : N) (pre post : str) (i : Z) :
  (0 <= i)%Z -> ~ In c post ->
  rfind_from [c] (pre ++ c :: post) i = (i + len pre)%Z.
Proof.
  revert i; induction pre as [|x pre IH]; intros i Hi Hc.
  - cbn [app rfind_from]. rewrite rfind_from_absent by assumption.
    rewrite startswith_char, N.eqb_refl. unfold len; simpl; lia.
  - cbn [app rfind_from]. rewrite IH by (assumption || lia).
    pose proof (len_nonneg pre).
    destruct (Z.eqb_spec (i + 1 + len pre) (-1)); [lia|].
    rewrite len_cons; lia.
Qed.

Lemma find_first (c : N) (pre rest : str) :
  ~ In c pre -> find (pre ++ c :: rest) [c] = len pre.
Proof. intros H. unfold find. now rewrite find_from_first. Qed.

Lemma find_absent (c : N) (s : str) : ~ In c s -> find s [c] = (-1)%Z.
Proof. apply find_from_absent. Qed.

Lemma rfind_last (c : N) (pre post : str) :
  ~ In c post -> rfind (pre ++ c :: post) [c] = len pre.
Proof. intros H. unfold rfind. now rewrite rfind_from_last by (lia || easy). Qed.

Lemma rfind_absent (c : N) (s : str) : ~ In c s -> rfind s [c] = (-1)%Z.
Proof. apply rfind_from_absent. Qed.

(** The first occurrence of a character that occurs. *)
Lemma split_first (c : N) (s : str) :
  In c s -> exists pre rest, s = pre ++ c :: rest /\ ~ In c pre.
Proof.
  induction s as [|x s IH]; [easy|]. intros H.
  destruct (N.eq_dec x c) as [->|Hx].
  - now exists [], s.
  - destruct H as [H|H]; [easy|].
    destruct (IH H) as (pre & rest & -> & Hpre).
    exists (x :: pre), rest. split; [reflexivity|].
    intros [E|E]; [now apply Hx | now apply Hpre].
Qed.

(** The last occurrence of a character that occurs. *)
Lemma split_last (c : N) (s : str) :
  In c s -> exists pre post, s = pre ++ c :: post /\ ~ In c post.
Proof.
  intros H. apply in_rev in H.
  destruct (split_first _ _ H) as (a & b & E & Ha).
  exists (rev b), (rev a). split.
  - apply (f_equal (@rev N)) in E. rewrite rev_involutive in E.
    rewrite E, rev_app_distr. simpl. now rewrite <- app_assoc.
  - now rewrite <- in_rev.
Qed.

Lemma lstrip_keep (c : N) (s : str) :
  isspace c = false -> lstrip (c :: s) = c :: s.
Proof. intros H. simpl. now rewrite H. Qed.

(** [strip] leaves alone a text that begins and ends with characters that
    are not whitespace. *)
Lemma strip_span (c d : N) (m : str) :
  isspace c = false -> isspace d = false ->
  strip (c :: m ++ [d]) = c :: m ++ [d].
Proof.
  intros Hc Hd. unfold strip, rstrip. rewrite (lstrip_keep _ _ Hc).
  replace (rev (c :: m ++ [d])) with (d :: rev (c :: m))
    by (rewrite app_comm_cons, rev_app_distr; reflexivity).
  rewrite (lstrip_keep _ _ Hd).
  change (d :: rev (c :: m)) with (rev [d] ++ rev (c :: m)).
  rewrite <- rev_app_distr, rev_involutive. reflexivity.
Qed.

(** ** The response extractor *)

Lemma without_leading_fun (p s r : str) :
  without_leading p s r ->
  r = if startswith s p then slice s (Some (len p)) None else s.
Proof.
  intros [r' -> | H].
  - now rewrite startswith_app, slice_after.
  - destruct (startswith s p) eqn:E; [|reflexivity].
    apply startswith_true in E as [r' E]. now apply H in E.
Qed.

Lemma without_trailing_fun (p s r : str) :
  p <> [] -> without_trailing p s r ->
  r = if endswith s p then slice s None (Some (- len p)%Z) else s.
Proof.
  intros Hp [r' -> | H].
  - now rewrite endswith_app, slice_before.
  - destruct (endswith s p) eqn:E; [|reflexivity].
    apply endswith_true in E as [r' E]. now apply H in E.
Qed.

Lemma without_leading_total (p s : str) : exists r, without_leading p s r.
Proof.
  destruct (startswith s p) eqn:E.
  - apply startswith_true in E as [r E]. exists r. now constructor.
  - exists s. apply leading_absent. now apply startswith_false.
Qed.

Lemma without_trailing_total (p s : str) : exists r, without_trailing p s r.
Proof.
  destruct (endswith s p) eqn:E.
  - apply endswith_true in E as [r E]. exists r. now constructor.
  - exists s. apply trailing_absent. now apply endswith_false.
Qed.

(** The function, once the fences are described by what they remove. *)
Lemma clean_json_response_unfenced (text t1 t2 t3 : str) :
  without_leading fence_json text t1 ->
  without_leading fence t1 t2 ->
  without_trailing fence t2 t3 ->
  clean_json_response text =
  strip (if negb (find t3 lbrace =? -1)%Z
            && negb (rfind t3 rbrace + 1 =? 0)%Z
         then slice t3 (Some (find t3 lbrace))
                       (Some (rfind t3 rbrace + 1)%Z)
         else t3).
Proof.
  intros H1 H2 H3.
  apply without_leading_fun in H1, H2.
  apply without_trailing_fun in H3; [|discriminate].
  subst t3 t2 t1. reflexivity.
Qed.

Lemma clean_span (text t1 t2 t3 pre mid post : str) :
  without_leading fence_json text t1 ->
  without_leading fence t1 t2 ->
  without_trailing fence t2 t3 ->
  t3 = pre ++ lbrace_char :: mid ++ rbrace_char :: post ->
  ~ In lbrace_char pre -> ~ In rbrace_char post ->
  clean_json_response text = lbrace_char :: mid ++ [rbrace_char].
Proof.
  intros H1 H2 H3 E Hpre Hpost.
  rewrite (clean_json_response_unfenced _ _ _ _ H1 H2 H3).
  assert (Hf : find t3 lbrace = len pre)
    by (rewrite E; now apply find_first).
  assert (Hr : rfind t3 rbrace = len (pre ++ lbrace_char :: mid)).
  { rewrite E.
    replace (pre ++ lbrace_char :: mid ++ rbrace_char :: post)
      with ((pre ++ lbrace_char :: mid) ++ rbrace_char :: post)
      by (now rewrite <- app_assoc).
    now apply rfind_last. }
  rewrite Hf, Hr, len_app, len_cons.
  pose proof (len_nonneg pre). pose proof (len_nonneg mid).
  destruct (Z.eqb_spec (len pre) (-1)); [lia|].
  destruct (Z.eqb_spec (len pre + (1 + len mid) + 1) 0); [lia|].
  cbn [negb andb].
  replace (len pre + (1 + len mid) + 1)%Z
    with (len pre + len (lbrace_char :: mid ++ [rbrace_char]))%Z
    by (rewrite len_cons, len_app, len_cons; unfold len;
        cbn [List.length]; lia).
  replace t3 with (pre ++ (lbrace_char :: mid ++ [rbrace_char]) ++ post)
    by (rewrite E; simpl; now rewrite <- app_assoc).
  rewrite slice_middle. now apply strip_span.
Qed.

Lemma clean_no_pair (text t1 t2 t3 : str) :
  without_leading fence_json text t1 ->
  without_leading fence t1 t2 ->
  without_trailing fence t2 t3 ->
  ~ In lbrace_char t3 \/ ~ In rbrace_char t3 ->
  clean_json_response text = strip t3.
Proof.
  intros H1 H2 H3 H.
  rewrite (clean_json_response_unfenced _ _ _ _ H1 H2 H3).
  destruct H as [H|H].
  - now rewrite (find_absent _ _ H : find t3 lbrace = _).
  - rewrite (rfind_absent _ _ H : rfind t3 rbrace = _). simpl.
    now rewrite andb_false_r.
Qed.

Lemma app_eq_first (c : N) (p r pre rest : str) :
  p ++ r = pre ++ c :: rest -> ~ In c p ->
  exists pre', r = pre' ++ c :: rest.
Proof.
  revert pre; induction p as [|y p IH]; intros pre E Hc.
  - now exists pre.
  - destruct pre as [|z pre]; simpl in E; injection E as -> E.
    + exfalso; apply Hc; now left.
    + apply (IH pre E). intros H; apply Hc; now right.
Qed.

Lemma app_eq_last (c : N) (r q pre post : str) :
  r ++ q = pre ++ c :: post -> ~ In c q ->
  exists post', r = pre ++ c :: post'.
Proof.
  intros E Hc. apply (f_equal (@rev N)) in E.
  rewrite !rev_app_distr in E. simpl in E. rewrite <- app_assoc in E.
  simpl in E. apply app_eq_first in E as [a E]; [|now rewrite <- in_rev].
  exists (rev a). apply (f_equal (@rev N)) in E.
  rewrite rev_involutive, rev_app_distr in E. simpl in E.
  now rewrite rev_involutive, <- app_assoc in E.
Qed.

Lemma has_span_leading (p s r : str) :
  without_leading p s r -> ~ In lbrace_char p -> has_span s -> has_span r.
Proof.
  intros [r' -> | _] Hp; [|easy]. intros (pre & mid & post & E).
  destruct (app_eq_first _ _ _ _ _ E Hp) as [pre' ->].
  now exists pre', mid, post.
Qed.

Lemma has_span_trailing (p s r : str) :
  without_trailing p s r -> ~ In rbrace_char p -> has_span s -> has_span r.
Proof.
  intros [r' -> | _] Hp; [|easy]. intros (pre & mid & post & E).
  replace (pre ++ lbrace_char :: mid ++ rbrace_char :: post)
    with ((pre ++ lbrace_char :: mid) ++ rbrace_char :: post) in E
    by (now rewrite <- app_assoc).
  destruct (app_eq_last _ _ _ _ _ E Hp) as [post' ->].
  exists pre, mid, post'. now rewrite <- app_assoc.
Qed.

(** A span can be taken from the first opening brace to the last closing
    one. *)
Lemma has_span_widest (s : str) :
  has_span s ->
  exists pre mid post,
    s = pre ++ lbrace_char :: mid ++ rbrace_char :: post
    /\ ~ In lbrace_char pre /\ ~ In rbrace_char post.
Proof.
  intros (pre & mid & post & ->).
  destruct (split_first lbrace_char (pre ++ [lbrace_char]))
    as (a & r1 & E1 & Ha); [apply in_or_app; right; now left|].
  destruct (split_last rbrace_char (rbrace_char :: post))
    as (p2 & b & E2 & Hb); [now left|].
  exists a, (r1 ++ mid ++ p2), b. repeat split; try assumption.
  replace (pre ++ lbrace_char :: mid ++ rbrace_char :: post)
    with ((pre ++ [lbrace_char]) ++ mid ++ rbrace_char :: post)
    by (now rewrite <- app_assoc).
  rewrite E1, E2, <- !app_assoc. reflexivity.
Qed.

(** On a text with a span the result is a brace-delimited text. *)
Lemma clean_of_span (x : str) :
  has_span x ->
  exists mid, clean_json_response x = lbrace_char :: mid ++ [rbrace_char].
Proof.
  intros Hx.
  destruct (without_leading_total fence_json x) as [t1 H1].
  destruct (without_leading_total fence t1) as [t2 H2].
  destruct (without_trailing_total fence t2) as [t3 H3].
  assert (Hb : forall p, In p [fence_json; fence] ->
                         ~ In lbrace_char p /\ ~ In rbrace_char p).
  { intros p [<-|[<-|[]]]; split; intros H; simpl in H;
      repeat (destruct H as [H|H]; [discriminate|]); easy. }
  assert (H3' : has_span t3).
  { apply (has_span_trailing _ _ _ H3); [apply Hb; simpl; auto|].
    apply (has_span_leading _ _ _ H2); [apply Hb; simpl; auto|].
    apply (has_span_leading _ _ _ H1); [apply Hb; simpl; auto|].
    exact Hx. }
  destruct (has_span_widest _ H3') as (pre & mid & post & E & Hpre & Hpost).
  exists mid. exact (clean_span _ _ _ _ _ _ _ H1 H2 H3 E Hpre Hpost).
Qed.

(** A brace-delimited text is returned as it is. *)
Lemma clean_fixed (mid : str) :
  clean_json_response (lbrace_char :: mid ++ [rbrace_char])
  = lbrace_char :: mid ++ [rbrace_char].
Proof.
  set (y := lbrace_char :: mid ++ [rbrace_char]).
  assert (H1 : without_leading fence_json y y)
    by (apply leading_absent, startswith_false; reflexivity).
  assert (H2 : without_leading fence y y)
    by (apply leading_absent, startswith_false; reflexivity).
  assert (H3 : without_trailing fence y y).
  { apply trailing_absent, endswith_false. unfold endswith, y.
    rewrite app_comm_cons, rev_app_distr. reflexivity. }
  apply (clean_span y y y y [] mid [] H1 H2 H3); [reflexivity|easy|easy].
Qed.

Example clean_prose :
  clean_json_response (py "Sure: {x{y}z} done}. bye") = py "{x{y}z} done}".
Proof. reflexivity. Qed.

Example clean_inverted : clean_json_response (py "}{") = [].
Proof. reflexivity. Qed.

Example clean_both_fences :
  clean_json_response (py "```json```  abc ") = py "abc".
Proof. reflexivity. Qed.

(** Without a JSON object in the text a second application can remove a
    fence the first one uncovered. *)
Example clean_twice_without_object :
  clean_json_response (py "``````json abc") = py "```json abc"
  /\ clean_json_response (py "```json abc") = py "abc".
Proof. split; reflexivity. Qed.

(** C8: the extractor is idempotent on every text that contains a JSON
    object, fenced or not: a text [pre ++ obj ++ post] whose part [obj]
    opens with a brace and closes with one, whatever surrounds it, is sent
    by two applications where one application sends it. *)
Theorem clean_json_response_idempotent (x pre obj body post : str) :
  x = pre ++ obj ++ post ->
  obj = lbrace_char :: body ++ [rbrace_char] ->
  clean_json_response (clean_json_response x) = clean_json_response x.
Proof.
  intros -> ->.
  destruct (clean_of_span (pre ++ (lbrace_char :: body ++ [rbrace_char]) ++ post))
    as [mid ->].
  - exists pre, body, post. simpl. now rewrite <- app_assoc.
  - apply clean_fixed.
Qed.

Lemma clean_json_response_idempotent_witness :
  clean_json_response (clean_json_response fenced_example)
  = clean_json_response fenced_example.
Proof.
  apply (clean_json_response_idempotent fenced_example
           (py ("```json" ++ nl)%string) fenced_example_object
           fenced_example_body (py (nl ++ "```")%string));
    reflexivity.
Defined.

(** With the last closing brace before the first opening brace, the
    slice of what the fences leave is empty. *)
Lemma clean_inverted_unfenced (text t1 t2 t3 u v : str) :
  without_leading fence_json text t1 ->
  without_leading fence t1 t2 ->
  without_trailing fence t2 t3 ->
  t3 = u ++ lbrace_char :: v ->
  ~ In lbrace_char u -> ~ In rbrace_char v -> In rbrace_char u ->
  clean_json_response text = [].
Proof.
  intros H1 H2 H3 E Hu Hv Hin.
  destruct (split_last _ _ Hin) as (w & w' & -> & Hw').
  rewrite (clean_json_response_unfenced _ _ _ _ H1 H2 H3).
  assert (Hf : find t3 lbrace = len (w ++ rbrace_char :: w'))
    by (rewrite E; now apply find_first).
  assert (Hr : rfind t3 rbrace = len w).
  { rewrite E, <- app_assoc. cbn [app]. apply rfind_last.
    intros H. apply in_app_or in H as [H|[H|H]];
      [now apply Hw'|discriminate|now apply Hv]. }
  rewrite Hf, Hr, len_app, len_cons.
  pose proof (len_nonneg w). pose proof (len_nonneg w').
  destruct (Z.eqb_spec (len w + (1 + len w')) (-1)); [lia|].
  destruct (Z.eqb_spec (len w + 1) 0); [lia|].
  cbn [negb andb]. unfold slice, slice_bound.
  destruct (Z.ltb_spec (len w + (1 + len w')) 0); [lia|].
  destruct (Z.ltb_spec (len w + 1) 0); [lia|].
  replace (Z.to_nat (Z.min (len w + 1) (len t3)
                     - Z.min (len w + (1 + len w')) (len t3)))
    with 0%nat by lia.
  reflexivity.
Qed.

(** Every text is in one of three cases: an opening brace with a closing
    brace after it, an opening brace with closing braces before it only,
    or a brace that is missing. *)
Lemma brace_cases (t : str) :
  (exists pre mid post,
      t = pre ++ lbrace_char :: mid ++ rbrace_char :: post
      /\ ~ In lbrace_char pre /\ ~ In rbrace_char post)
  \/ (exists u v,
         t = u ++ lbrace_char :: v
         /\ ~ In lbrace_char u /\ ~ In rbrace_char v /\ In rbrace_char u)
  \/ (~ In lbrace_char t \/ ~ In rbrace_char t).
Proof.
  destruct (in_dec N.eq_dec lbrace_char t) as [Hl|Hl];
    [|right; right; now left].
  destruct (in_dec N.eq_dec rbrace_char t) as [Hr|Hr];
    [|right; right; now right].
  destruct (split_first _ _ Hl) as (u & v & -> & Hu).
  destruct (in_dec N.eq_dec rbrace_char v) as [Hv|Hv].
  - left. destruct (split_last _ _ Hv) as (mid & post & -> & Hpost).
    now exists u, mid, post.
  - right. left. exists u, v. repeat split; try assumption.
    apply in_app_or in Hr as [Hr|[Hr|Hr]]; [exact Hr|discriminate|easy].
Qed.

(** C9: the extractor removes a leading [```json] fence, then a leading
    [```] fence, then a trailing [```] fence, each when present.  In what
    remains, when both braces occur it keeps the slice from the first
    opening brace to the last closing brace, both included: the text
    between them when the closing brace comes later, the empty text when
    it comes earlier.  With no opening or no closing brace it returns what
    remains, trimmed.  These cases leave no text out.  The fenced example of
    the specification yields its JSON object. *)
Theorem clean_json_response_spec (text t1 t2 t3 : str) :
  without_leading fence_json text t1 ->
  without_leading fence t1 t2 ->
  without_trailing fence t2 t3 ->
  (forall pre mid post,
      t3 = pre ++ lbrace_char :: mid ++ rbrace_char :: post ->
      ~ In lbrace_char pre -> ~ In rbrace_char post ->
      clean_json_response text = lbrace_char :: mid ++ [rbrace_char])
  /\ (forall u v,
         t3 = u ++ lbrace_char :: v ->
         ~ In lbrace_char u -> ~ In rbrace_char v -> In rbrace_char u ->
         clean_json_response text = [])
  /\ (~ In lbrace_char t3 \/ ~ In rbrace_char t3 ->
      clean_json_response text = strip t3)
  /\ ((exists pre mid post,
          t3 = pre ++ lbrace_char :: mid ++ rbrace_char :: post
          /\ ~ In lbrace_char pre /\ ~ In rbrace_char post)
      \/ (exists u v,
             t3 = u ++ lbrace_char :: v
             /\ ~ In lbrace_char u /\ ~ In rbrace_char v
             /\ In rbrace_char u)
      \/ (~ In lbrace_char t3 \/ ~ In rbrace_char t3))
  /\ clean_json_response fenced_example = fenced_example_object.
Proof.
  intros H1 H2 H3. repeat split.
  - intros pre mid post. now apply clean_span with (t1 := t1) (t2 := t2).
  - intros u v. now apply clean_inverted_unfenced with (t1 := t1) (t2 := t2).
  - now apply clean_no_pair with (t1 := t1) (t2 := t2).
  - apply brace_cases.
Qed.

Lemma clean_json_response_spec_witness :
  clean_json_response fenced_example
  = lbrace_char :: fenced_example_body ++ [rbrace_char].
Proof.
  set (t := py (nl ++ "{" ++ dq ++ "a" ++ dq ++ ":1}" ++ nl ++ "```")%string).
  set (t3 := py (nl ++ "{" ++ dq ++ "a" ++ dq ++ ":1}" ++ nl)%string).
  assert (H1 : without_leading fence_json fenced_example t)
    by (apply leading_removed; reflexivity).
  assert (H2 : without_leading fence t t)
    by (apply leading_absent, startswith_false; reflexivity).
  assert (H3 : without_trailing fence t t3)
    by (apply trailing_removed; reflexivity).
  apply (proj1 (clean_json_response_spec fenced_example t t t3 H1 H2 H3)
           (py nl) fenced_example_body (py nl)).
  - reflexivity.
  - vm_compute. intros [H|[]]; discriminate.
  - vm_compute. intros [H|[]]; discriminate.
Defined.

(** ** The stubbed scenario, run *)

Example stub_recommend :
  recommend_trail stub_loads stub example_request []
  = (Returned (RouteResult stub_name stub_coordinates),
     [Generate (NamePrompt (py "2km") (py "nature")
                  (375665 # 10000) (1269780 # 10000));
      Generate (DetailPrompt stub_name);
      Get (ReverseGeocode (375665 # 10000) (1269780 # 10000));
      Generate (WaypointsPrompt stub_name (JStr city_hall));
      Get (Geocode (JStr city_hall));
      Get (Geocode (JStr palace));
      Get (Geocode (JStr city_hall))]).
Proof. vm_compute. reflexivity. Qed.

Example stub_directions :
  fst (get_directions_coordinates_from_waypoints stub
         (values [city_hall; palace; city_hall]) [])
  = Returned [(JNum (1269780 # 10000), JNum (375665 # 10000));
              (JNum (1269770 # 10000), JNum (375660 # 10000));
              (JNum (1269752 # 10000), JNum (375658 # 10000));
              (JNum (1269752 # 10000), JNum (375658 # 10000));
              (JNum (1269765 # 10000), JNum (375662 # 10000));
              (JNum (1269780 # 10000), JNum (375665 # 10000))].
Proof. vm_compute. reflexivity. Qed.

(** ** Sequences *)

Lemma index_first {A} (x : A) (s : list A) : index (x :: s) 0 = Some x.
Proof.
  unfold index. rewrite len_cons. pose proof (len_nonneg s).
  cbn [Z.ltb Z.compare Z.leb andb].
  destruct (Z.ltb_spec 0 (1 + len s)); [reflexivity|lia].
Qed.

Lemma index_last {A} (s : list A) (x : A) : index (s ++ [x]) (-1) = Some x.
Proof.
  unfold index. rewrite len_app. change (len [x]) with 1%Z.
  pose proof (len_nonneg s). cbn [Z.ltb Z.compare].
  replace (-1 + (len s + 1))%Z with (len s) by lia.
  destruct (Z.leb_spec 0 (len s)); [|lia].
  destruct (Z.ltb_spec (len s) (len s + 1)); [|lia].
  unfold len. rewrite Nat2Z.id. cbn [andb].
  rewrite nth_error_app2, Nat.sub_diag by lia. reflexivity.
Qed.

(** [s[1:-1]] is what lies between the first and the last element. *)
Lemma slice_inner {A} (x y : A) (mid : list A) :
  slice (x :: mid ++ [y]) (Some 1%Z) (Some (-1)%Z) = mid.
Proof.
  unfold slice, slice_bound. rewrite len_cons, len_app.
  change (len [y]) with 1%Z. pose proof (len_nonneg mid).
  cbn [Z.ltb Z.compare].
  rewrite Z.min_l, Z.max_r by lia.
  replace (1 + (len mid + 1) + -1 - 1)%Z with (len mid) by lia.
  unfold len. rewrite Nat2Z.id. change (Z.to_nat 1) with 1%nat.
  cbn [skipn]. rewrite firstn_app, firstn_all, Nat.sub_diag.
  simpl. apply app_nil_r.
Qed.

Lemma is_str_true (v : json) (s : str) : is_str v s = true -> v = JStr s.
Proof.
  destruct v; simpl; try discriminate. intros H.
  apply eqb_eq in H. now subst.
Qed.

Lemma is_str_refl (s : str) : is_str (JStr s) s = true.
Proof. apply eqb_refl. Qed.

Lemma is_str_other (v : json) (s : str) :
  v <> JStr s -> is_str v s = false.
Proof.
  intros H. destruct (is_str v s) eqn:E; [|reflexivity].
  now apply is_str_true in E.
Qed.

(** ** The route resolver *)

Lemma lng_lat_location (v : json) (l : Location) :
  is_location v l -> lng_lat v = Some (point l).
Proof.
  intros [Hlat Hlng]. unfold lng_lat. now rewrite Hlng, Hlat.
Qed.

Lemma starts_of_steps (items : list json) (steps : list Step) :
  Forall2 is_step items steps ->
  omap_list (fun step =>
               let? start_location := getitem step k_start_location in
               lng_lat start_location) items
  = Some (map (fun s => point (step_start s)) steps).
Proof.
  induction 1 as [|v s items steps (a & b & Ha & La & _) _ IH]; [reflexivity|].
  cbn [omap_list map]. rewrite Ha. cbn [obind].
  rewrite (lng_lat_location _ _ La). cbn [obind]. now rewrite IH.
Qed.

Lemma leg_coordinates_path (v : json) (steps : list Step) :
  is_leg v steps -> steps <> [] -> leg_coordinates v = Some (leg_path steps).
Proof.
  intros (items & Hs & HF) Hne. unfold leg_coordinates, leg_path.
  rewrite Hs. cbn [obind iterate].
  rewrite (starts_of_steps _ _ HF). cbn [obind].
  destruct (exists_last Hne) as (steps' & final & ->).
  apply Forall2_app_inv_r in HF
    as (items' & tail & _ & Htail & ->).
  inversion Htail as [|w ? ? tl (a & b & _ & _ & Hb & Lb) Hnil]; subst.
  inversion Hnil; subst.
  cbn [getindex]. rewrite index_last. cbn [obind].
  rewrite Hb. cbn [obind]. rewrite (lng_lat_location _ _ Lb). cbn [obind].
  rewrite rev_app_distr. reflexivity.
Qed.

Lemma legs_coordinates_path (items : list json) (legs : list (list Step)) :
  Forall2 is_leg items legs -> Forall (fun steps => steps <> []) legs ->
  omap_list leg_coordinates items = Some (map leg_path legs).
Proof.
  induction 1 as [|v steps items legs Hv _ IH]; intros Hne; [reflexivity|].
  inversion Hne; subst. cbn [omap_list map].
  rewrite (leg_coordinates_path _ _ Hv) by assumption. cbn [obind].
  now rewrite IH.
Qed.

Lemma directions_coordinates_path (data : json) (legs : list (list Step)) :
  is_route data legs -> Forall (fun steps => steps <> []) legs ->
  directions_coordinates data = Some (route_path legs).
Proof.
  intros (Hst & route & others & items & Hr & Hl & HF) Hne.
  unfold directions_coordinates. rewrite Hst. cbn [obind].
  rewrite is_str_refl, Hr. cbn [obind getindex].
  rewrite index_first. cbn [obind]. rewrite Hl. cbn [obind iterate].
  rewrite (legs_coordinates_path _ _ HF Hne). cbn [obind].
  unfold route_path. now rewrite flat_map_concat_map.
Qed.

Lemma leg_path_length (steps : list Step) :
  steps <> [] -> List.length (leg_path steps) = S (List.length steps).
Proof.
  intros Hne. destruct (exists_last Hne) as (steps' & final & ->).
  unfold leg_path. rewrite rev_app_distr. cbn [rev app].
  rewrite length_app, length_map. cbn [List.length]. lia.
Qed.

(** A leg without steps has no last step: the lookup raises and the
    handler of the resolver returns the empty sequence. *)
Example directions_leg_without_steps :
  directions_coordinates
    (JObj [(k_status, JStr OK);
           (k_routes, JArr [JObj [(k_legs,
                                   JArr [JObj [(k_steps, JArr [])]])]])])
  = None.
Proof. reflexivity. Qed.

(** C6: on fewer than two waypoints the route resolver returns the empty
    sequence and leaves the log of calls as it found it: neither the
    key-verification request nor the directions request is issued. *)
Theorem directions_too_short (W : providers) (waypoints : list json)
    (log : list call) :
  (len waypoints < 2)%Z ->
  get_directions_coordinates_from_waypoints W waypoints log
  = (Returned [], log).
Proof.
  intros H. unfold get_directions_coordinates_from_waypoints.
  destruct (Z.ltb_spec (len waypoints) 2); [reflexivity|lia].
Qed.

Lemma directions_too_short_witness :
  get_directions_coordinates_from_waypoints stub [JStr city_hall] []
  = (Returned [], []).
Proof.
  apply (directions_too_short stub [JStr city_hall] []). reflexivity.
Defined.

(** C7: on two waypoints or more, when the key-verification request fails
    (it raises, or its status is not ["OK"]), the route resolver returns the
    empty sequence, and the verification request is the only call it
    issued: no directions request follows. *)
Theorem directions_key_failure (W : providers) (waypoints : list json)
    (log : list call) :
  (2 <= len waypoints)%Z ->
  ~ key_verified (requests_get W log VerifyKey) ->
  get_directions_coordinates_from_waypoints W waypoints log
  = (Returned [], log ++ [Get VerifyKey]).
Proof.
  intros Hlen Hkey. unfold get_directions_coordinates_from_waypoints.
  destruct (Z.ltb_spec (len waypoints) 2); [lia|].
  unfold bind, call_maps.
  destruct (requests_get W log VerifyKey) as [body|]; [|reflexivity].
  cbn [obind]. destruct (getitem body k_status) as [status|] eqn:Est;
    [|reflexivity].
  destruct (is_str status OK) eqn:Eok; [|reflexivity].
  exfalso. apply Hkey. exists body. split; [reflexivity|].
  now rewrite Est, (is_str_true _ _ Eok).
Qed.

Lemma directions_key_failure_witness :
  get_directions_coordinates_from_waypoints (with_denied_key stub)
    (values [city_hall; palace; city_hall]) []
  = (Returned [], [Get VerifyKey]).
Proof.
  apply (directions_key_failure (with_denied_key stub)
           (values [city_hall; palace; city_hall]) []).
  - vm_compute. discriminate.
  - intros (body & Hb & Hs). vm_compute in Hb. injection Hb as <-.
    vm_compute in Hs. discriminate.
Defined.

Lemma values_ends (origin destination : str) (middle : list str) :
  values (origin :: middle ++ [destination])
  = JStr origin :: values middle ++ [JStr destination].
Proof. unfold values. cbn [map]. now rewrite map_app. Qed.

Lemma texts_values (l : list str) : texts (values l) = Some l.
Proof.
  induction l as [|x l IH]; [reflexivity|].
  cbn [values map texts]. fold (values l). now rewrite IH.
Qed.

Lemma prints_values (l : list str) :
  forallb prints (values l) = forallb printable l.
Proof.
  induction l as [|x l IH]; [reflexivity|].
  cbn [values map forallb prints]. fold (values l). now rewrite IH.
Qed.

(** The resolver past the key verification, on any values. *)
Lemma resolver_run (W : providers) (origin destination : json)
    (middle : list json) (log : list call) :
  key_verified (requests_get W log VerifyKey) ->
  get_directions_coordinates_from_waypoints W
    (origin :: middle ++ [destination]) log
  = match
      (match middle with
       | [] => Some []
       | _ :: _ => option_map (join pipe) (texts middle)
       end)
    with
    | None => (Raised, log ++ [Get VerifyKey])
    | Some via =>
        if prints origin && prints destination && forallb prints middle
        then
          (Returned
             match
               (let? data :=
                  requests_get W (log ++ [Get VerifyKey])
                    (Directions origin destination via) in
                directions_coordinates data)
             with
             | Some coordinates => coordinates
             | None => []
             end,
           log ++ [Get VerifyKey; Get (Directions origin destination via)])
        else (Returned [], log ++ [Get VerifyKey])
    end.
Proof.
  intros (body & Hb & Hst).
  unfold get_directions_coordinates_from_waypoints.
  pose proof (len_nonneg middle).
  destruct (Z.ltb_spec (len (origin :: middle ++ [destination])) 2) as [Hl|_].
  { rewrite len_cons, len_app in Hl.
    change (len [destination]) with 1%Z in Hl. lia. }
  unfold bind, call_maps. rewrite Hb. cbn [obind]. rewrite Hst.
  rewrite is_str_refl. cbn [negb].
  rewrite index_first, app_comm_cons, index_last, <- app_comm_cons.
  rewrite slice_inner.
  destruct (match middle with
            | [] => Some []
            | _ :: _ => option_map (join pipe) (texts middle)
            end) as [via|]; [|reflexivity].
  destruct (prints origin && prints destination && forallb prints middle);
    [|reflexivity].
  rewrite <- app_assoc. cbn [app].
  now destruct (let? data := requests_get W _ _ in directions_coordinates data).
Qed.

(** The resolver past the key verification, on text labels that the
    console can print. *)
Lemma resolver_run_texts (W : providers) (origin destination : str)
    (middle : list str) (log : list call) :
  key_verified (requests_get W log VerifyKey) ->
  forallb printable (origin :: middle ++ [destination]) = true ->
  get_directions_coordinates_from_waypoints W
    (values (origin :: middle ++ [destination])) log
  = (Returned
       match
         (let? data :=
            requests_get W (log ++ [Get VerifyKey])
              (Directions (JStr origin) (JStr destination)
                 (join pipe middle)) in
          directions_coordinates data)
       with
       | Some coordinates => coordinates
       | None => []
       end,
     log ++ [Get VerifyKey;
             Get (Directions (JStr origin) (JStr destination)
                    (join pipe middle))]).
Proof.
  intros Hk Hp. rewrite values_ends, (resolver_run _ _ _ _ _ Hk).
  replace (match values middle with
           | [] => Some []
           | _ :: _ => option_map (join pipe) (texts (values middle))
           end) with (Some (join pipe middle))
    by (rewrite texts_values; now destruct middle).
  cbn [forallb] in Hp. rewrite forallb_app in Hp. cbn [forallb] in Hp.
  apply andb_true_iff in Hp as [Ho Hp].
  apply andb_true_iff in Hp as [Hm Hd]. rewrite andb_true_r in Hd.
  cbn [prints]. now rewrite prints_values, Ho, Hd, Hm.
Qed.

(** C4, as the code has it: with the key verified, for text waypoints
    that the console can print and a directions response of success status
    whose legs each have a step, the route resolver asks for the route
    from the first waypoint to the last through the ones in between, and
    returns, leg after leg, the start of every step followed once by the
    end of the leg's last step, each point as (longitude, latitude); for two
    legs of two steps these are six coordinates. *)
Theorem directions_flatten (W : providers) (origin destination : str)
    (middle : list str) (log : list call) (data : json)
    (legs : list (list Step)) :
  key_verified (requests_get W log VerifyKey) ->
  forallb printable (origin :: middle ++ [destination]) = true ->
  requests_get W (log ++ [Get VerifyKey])
    (Directions (JStr origin) (JStr destination) (join pipe middle))
  = Some data ->
  is_route data legs ->
  Forall (fun steps => steps <> []) legs ->
  get_directions_coordinates_from_waypoints W
    (values (origin :: middle ++ [destination])) log
  = (Returned (route_path legs),
     log ++ [Get VerifyKey;
             Get (Directions (JStr origin) (JStr destination)
                    (join pipe middle))])
  /\ (forall s1 s2 s3 s4,
         legs = [[s1; s2]; [s3; s4]] ->
         route_path legs
         = [point (step_start s1); point (step_start s2); point (step_end s2);
            point (step_start s3); point (step_start s4); point (step_end s4)]).
Proof.
  intros Hk Hp Hd Hroute Hne. split; [|now intros ? ? ? ? ->].
  rewrite (resolver_run_texts _ _ _ _ _ Hk Hp), Hd. cbn [obind].
  now rewrite (directions_coordinates_path _ _ Hroute Hne).
Qed.

Lemma directions_flatten_witness :
  get_directions_coordinates_from_waypoints stub
    (values [city_hall; palace; city_hall]) []
  = (Returned
       [(JNum (1269780 # 10000), JNum (375665 # 10000));
        (JNum (1269770 # 10000), JNum (375660 # 10000));
        (JNum (1269752 # 10000), JNum (375658 # 10000));
        (JNum (1269752 # 10000), JNum (375658 # 10000));
        (JNum (1269765 # 10000), JNum (375662 # 10000));
        (JNum (1269780 # 10000), JNum (375665 # 10000))],
     [Get VerifyKey;
      Get (Directions (JStr city_hall) (JStr city_hall) palace)]).
Proof.
  pose (l0 := {| loc_lat := JNum (375665 # 10000);
                 loc_lng := JNum (1269780 # 10000) |}).
  pose (l1 := {| loc_lat := JNum (375660 # 10000);
                 loc_lng := JNum (1269770 # 10000) |}).
  pose (l2 := {| loc_lat := JNum (375658 # 10000);
                 loc_lng := JNum (1269752 # 10000) |}).
  pose (l3 := {| loc_lat := JNum (375662 # 10000);
                 loc_lng := JNum (1269765 # 10000) |}).
  pose (legs := [[{| step_start := l0; step_end := l1 |};
                  {| step_start := l1; step_end := l2 |}];
                 [{| step_start := l2; step_end := l3 |};
                  {| step_start := l3; step_end := l0 |}]]).
  assert (Hstep : forall a b la lb,
             is_location a la -> is_location b lb ->
             is_step (step_json a b) {| step_start := la; step_end := lb |}).
  { intros a b la lb Ha Hb. exists a, b.
    split; [reflexivity|]. split; [exact Ha|]. split; [reflexivity|exact Hb]. }
  assert (Hloc : forall lat lng,
             is_location (location_json lat lng)
               {| loc_lat := JNum lat; loc_lng := JNum lng |})
    by (intros; split; reflexivity).
  refine (proj1 (directions_flatten stub city_hall city_hall [palace] []
                   directions_body legs _ _ _ _ _)).
  - eexists. split; reflexivity.
  - reflexivity.
  - reflexivity.
  - split; [reflexivity|]. do 3 eexists. split; [reflexivity|].
    split; [reflexivity|].
    repeat constructor; eexists; (split; [reflexivity|]);
      repeat constructor; apply Hstep; apply Hloc.
  - repeat constructor; discriminate.
Defined.

(** C4 as worded fails: a response of success status whose second leg
    has no steps has, as the flattening of its legs, the three points of
    the first leg; the resolver returns the empty sequence. *)
Lemma directions_flatten_leg_without_steps :
  is_route broken_directions_body [broken_first_leg; []]
  /\ route_path [broken_first_leg; []]
     = [(JNum (1269780 # 10000), JNum (375665 # 10000));
        (JNum (1269770 # 10000), JNum (375660 # 10000));
        (JNum (1269752 # 10000), JNum (375658 # 10000))]
  /\ get_directions_coordinates_from_waypoints
       (override keep (on_directions (Some broken_directions_body)) stub)
       (values [city_hall; palace; city_hall]) []
     = (Returned [],
        [Get VerifyKey;
         Get (Directions (JStr city_hall) (JStr city_hall) palace)]).
Proof.
  split; [|split; reflexivity].
  split; [reflexivity|]. exists broken_route, [].
  eexists. split; [reflexivity|]. split; [reflexivity|].
  constructor; [|constructor; [|constructor]].
  - eexists. split; [reflexivity|].
    constructor; [|constructor; [|constructor]];
      (do 2 eexists; repeat split; reflexivity).
  - exists []. split; [reflexivity|constructor].
Qed.

(** ** Geocoding a batch of labels *)

Lemma geocode_failed_geocoded (data : option json) :
  geocode_failed data -> geocoded data = None.
Proof.
  intros [-> | (body & -> & H)]; [reflexivity|].
  unfold geocoded. cbn [obind].
  destruct (getitem body k_status) as [status|]; [|reflexivity].
  cbn [obind]. destruct (is_str status OK) eqn:E; [|reflexivity].
  apply is_str_true in E. now subst.
Qed.

Lemma geocode_resolved_geocoded (data : option json) (c : coordinate) :
  geocode_resolved data c -> geocoded data = Some c.
Proof.
  intros (body & first & others & geometry & location
          & -> & Hst & Hres & Hgeo & Hloc & Hlng & Hlat).
  unfold geocoded. cbn [obind]. rewrite Hst. cbn [obind].
  rewrite is_str_refl, Hres. cbn [obind getindex].
  rewrite index_first. cbn [obind]. rewrite Hgeo. cbn [obind].
  rewrite Hloc. cbn [obind]. unfold lng_lat. rewrite Hlng, Hlat.
  now destruct c.
Qed.

Lemma geocode_calls_app (a b : list json) :
  geocode_calls (a ++ b) = geocode_calls a ++ geocode_calls b.
Proof. apply map_app. Qed.

Lemma geocode_each_fail_fast (W : providers) (pre : list json) (l : json)
    (post : list json) (coordinates : list coordinate) (log : list call) :
  geocode_failed (requests_get W (log ++ geocode_calls pre) (Geocode l)) ->
  exists visited rest,
    geocode_each W (pre ++ l :: post) coordinates log
    = (Returned [], log ++ geocode_calls visited)
    /\ pre ++ [l] = visited ++ rest.
Proof.
  revert coordinates log.
  induction pre as [|a pre IH]; intros coordinates log H.
  - cbn [geocode_calls map] in H. rewrite app_nil_r in H.
    cbn [app geocode_each]. destruct (prints l).
    + exists [l], []. split; [|reflexivity]. unfold bind, call_maps.
      now rewrite (geocode_failed_geocoded _ H).
    + exists [], [l]. split; [|reflexivity]. cbn. now rewrite app_nil_r.
  - cbn [app geocode_each]. destruct (prints a).
    + unfold bind, call_maps.
      destruct (geocoded (requests_get W log (Geocode a))) as [c|].
      * destruct (IH (coordinates ++ [c]) (log ++ [Get (Geocode a)]))
          as (visited & rest & E & Hsplit).
        { now rewrite <- app_assoc. }
        exists (a :: visited), rest. split.
        -- rewrite E. now rewrite <- app_assoc.
        -- cbn [app]. now rewrite Hsplit.
      * exists [a], (pre ++ [l]). split; reflexivity.
    + exists [], (a :: pre ++ [l]). split; [|reflexivity].
      cbn. now rewrite app_nil_r.
Qed.

Lemma geocode_each_all (W : providers) (labels : list json)
    (found : list coordinate) (coordinates : list coordinate)
    (log : list call) :
  forallb prints labels = true ->
  Forall2 (fun label c =>
             forall log', geocode_resolved
                            (requests_get W log' (Geocode label)) c)
          labels found ->
  geocode_each W labels coordinates log
  = (Returned (coordinates ++ found), log ++ geocode_calls labels).
Proof.
  intros Hp H. revert coordinates log.
  induction H as [|label c labels found Hc _ IH]; intros coordinates log.
  - cbn. now rewrite !app_nil_r.
  - cbn [forallb] in Hp. apply andb_true_iff in Hp as [Hl Hp].
    cbn [geocode_each]. rewrite Hl. unfold bind, call_maps.
    rewrite (geocode_resolved_geocoded _ _ (Hc log)).
    rewrite (IH Hp). cbn [geocode_calls map]. now rewrite <- !app_assoc.
Qed.

(** C5: when the geocoding of one label of the batch fails (the request
    raises or the status is not ["OK"]), the batch returns the empty
    sequence, whatever was resolved before, and issues no request past
    the failing label; so for three labels whose second fails, too. *)
Theorem coordinates_fail_fast (W : providers) (pre : list json) (l : json)
    (post : list json) (log : list call) :
  geocode_failed (requests_get W (log ++ geocode_calls pre) (Geocode l)) ->
  exists visited rest,
    get_coordinates_for_waypoints W (JArr (pre ++ l :: post)) log
    = (Returned [], log ++ geocode_calls visited)
    /\ pre ++ [l] = visited ++ rest.
Proof.
  intros H. unfold get_coordinates_for_waypoints.
  replace (truthy (JArr (pre ++ l :: post))) with true
    by (now destruct pre).
  cbn [negb iterate]. now apply geocode_each_fail_fast.
Qed.

Lemma coordinates_fail_fast_witness :
  fst (get_coordinates_for_waypoints (with_unknown palace stub)
         (JArr [JStr city_hall; JStr palace; JStr city_hall]) [])
  = Returned [].
Proof.
  destruct (coordinates_fail_fast (with_unknown palace stub)
              [JStr city_hall] (JStr palace) [JStr city_hall] [])
    as (visited & rest & E & _).
  - right. eexists. split; [reflexivity|]. vm_compute. discriminate.
  - cbn [app] in E. now rewrite E.
Defined.

(** ** The pipeline *)

Section PipelineFacts.

Variable json_loads : str -> option json.
Variable W : providers.

Lemma get_trail_name_run (d t : str) (la lo : Q) (log : list call) :
  get_trail_name_from_gemini W d t la lo log
  = (Returned match generate_content W log (NamePrompt d t la lo) with
              | Some text => strip text
              | None => sentinel
              end,
     log ++ [Generate (NamePrompt d t la lo)]).
Proof.
  unfold get_trail_name_from_gemini, bind, call_model.
  now destruct (generate_content W log (NamePrompt d t la lo)).
Qed.

(** The detail stage returns whatever the model does. *)
Lemma get_trail_detail_run (name : str) (log : list call) :
  exists detail,
    get_trail_detail_from_gemini json_loads W name log
    = (Returned detail, log ++ [Generate (DetailPrompt name)]).
Proof.
  unfold get_trail_detail_from_gemini, bind, call_model.
  destruct (generate_content W log (DetailPrompt name)) as [raw|];
    [|now eexists].
  destruct (json_loads (clean_json_response raw)); now eexists.
Qed.

Lemma get_trail_waypoints_log (name : str) (la lo : Q) (log : list call) :
  exists start,
    snd (get_trail_waypoints_from_gemini json_loads W name la lo log)
    = log ++ [Get (ReverseGeocode la lo);
              Generate (WaypointsPrompt name start)].
Proof.
  unfold get_trail_waypoints_from_gemini, bind, call_maps, call_model.
  eexists. cbn.
  destruct (generate_content W _ _) as [raw|];
    [|now rewrite <- app_assoc].
  destruct (json_loads (clean_json_response raw)) as [[]|];
    cbn; now rewrite <- app_assoc.
Qed.

(** The waypoint stage raises when no text comes back for its prompt. *)
Lemma get_trail_waypoints_raises (name : str) (la lo : Q) (log : list call) :
  (forall log' start,
      generate_content W log' (WaypointsPrompt name start) = None) ->
  fst (get_trail_waypoints_from_gemini json_loads W name la lo log) = Raised.
Proof.
  intros H. unfold get_trail_waypoints_from_gemini, bind, call_maps,
    call_model. cbn. now rewrite H.
Qed.

(** The waypoint stage returns the [waypoints] entry of the decoded
    object when the model answers its prompt with a text. *)
Lemma get_trail_waypoints_run (name : str) (la lo : Q) (log : list call)
    (raw : str) (items : list (str * json)) (waypoints : json) :
  (forall log' start,
      generate_content W log' (WaypointsPrompt name start) = Some raw) ->
  json_loads (clean_json_response raw) = Some (JObj items) ->
  assoc k_waypoints items = Some waypoints ->
  fst (get_trail_waypoints_from_gemini json_loads W name la lo log)
  = Returned waypoints.
Proof.
  intros Hraw Hload Hget.
  unfold get_trail_waypoints_from_gemini, bind, call_maps, call_model.
  cbn. now rewrite Hraw, Hload, Hget.
Qed.

Lemma geocode_each_log (todo : list json) (coordinates : list coordinate)
    (log : list call) :
  exists visited,
    snd (geocode_each W todo coordinates log) = log ++ geocode_calls visited.
Proof.
  revert coordinates log.
  induction todo as [|a todo IH]; intros coordinates log.
  - exists []. cbn. now rewrite app_nil_r.
  - cbn [geocode_each].
    destruct (prints a); [|exists []; cbn; now rewrite app_nil_r].
    unfold bind, call_maps.
    destruct (geocoded (requests_get W log (Geocode a))) as [c|].
    + destruct (IH (coordinates ++ [c]) (log ++ [Get (Geocode a)]))
        as [visited E].
      exists (a :: visited). rewrite E. now rewrite <- app_assoc.
    + now exists [a].
Qed.

Lemma get_coordinates_log (waypoints : json) (log : list call) :
  exists visited,
    snd (get_coordinates_for_waypoints W waypoints log)
    = log ++ geocode_calls visited.
Proof.
  unfold get_coordinates_for_waypoints.
  destruct (truthy waypoints).
  - cbn [negb]. destruct (iterate waypoints) as [todo|].
    + apply geocode_each_log.
    + exists []. cbn. now rewrite app_nil_r.
  - exists []. cbn. now rewrite app_nil_r.
Qed.

(** The pipeline never asks for directions. *)
Lemma recommend_trail_no_directions (req : TrailRequest) (log : list call) :
  exists calls,
    snd (recommend_trail json_loads W req log) = log ++ calls
    /\ forallb (fun c => negb (is_directions c)) calls = true.
Proof.
  unfold recommend_trail, bind. rewrite get_trail_name_run.
  set (name := match generate_content W log _ with
               | Some text => strip text | None => sentinel end).
  destruct (eqb name sentinel); [now eexists|].
  destruct (get_trail_detail_run name
              (log ++ [Generate (NamePrompt (distance req) (theme req)
                                   (latitude req) (longitude req))]))
    as [detail ->].
  set (log2 := (log ++ _) ++ _).
  destruct (get_trail_waypoints_log name (latitude req) (longitude req) log2)
    as [start E].
  destruct (get_trail_waypoints_from_gemini json_loads W name _ _ log2)
    as [[waypoints|] log3]; cbn [snd] in E; subst log3.
  - set (log3 := log2 ++ _).
    destruct (get_coordinates_log waypoints log3) as [visited E].
    destruct (get_coordinates_for_waypoints W waypoints log3)
      as [[coords|] log4]; cbn [snd] in E; subst log4;
      (eexists; split;
       [unfold log3, log2; cbn [snd ret]; rewrite <- !app_assoc; reflexivity|]);
      cbn; induction visited; auto.
  - eexists. split;
      [unfold log2; cbn [snd]; rewrite <- !app_assoc; reflexivity|reflexivity].
Qed.

End PipelineFacts.

(** C1: when the naming stage returns the sentinel text, the pipeline
    returns the error-shaped result, and the naming call is the only call
    it issued: the detail, waypoint and geocoding stages are not run. *)
Theorem recommend_trail_sentinel (json_loads : str -> option json)
    (W : providers) (req : TrailRequest) (log : list call) :
  fst (get_trail_name_from_gemini W (distance req) (theme req)
         (latitude req) (longitude req) log) = Returned sentinel ->
  recommend_trail json_loads W req log
  = (Returned (ErrorResult error_message),
     log ++ [Generate (name_prompt req)]).
Proof.
  intros H. unfold recommend_trail, bind.
  rewrite get_trail_name_run in *. cbn [fst] in H.
  injection H as ->. reflexivity.
Qed.

Lemma recommend_trail_sentinel_witness :
  recommend_trail stub_loads (with_name None stub) example_request []
  = (Returned (ErrorResult error_message),
     [Generate (name_prompt example_request)]).
Proof.
  apply (recommend_trail_sentinel stub_loads (with_name None stub)
           example_request []).
  reflexivity.
Defined.

(** C10: the failure check is an equality of texts, so a generation that
    succeeds with a text that trims to the sentinel makes the pipeline
    return the error-shaped result after the naming call alone, and the
    outcome and the calls are those of a provider whose naming call
    failed. *)
Theorem recommend_trail_sentinel_collision
    (json_loads : str -> option json) (W W' : providers)
    (req : TrailRequest) (log : list call) (text : str) :
  generate_content W log (name_prompt req) = Some text ->
  strip text = sentinel ->
  generate_content W' log (name_prompt req) = None ->
  recommend_trail json_loads W req log
  = (Returned (ErrorResult error_message),
     log ++ [Generate (name_prompt req)])
  /\ recommend_trail json_loads W req log
     = recommend_trail json_loads W' req log.
Proof.
  unfold name_prompt. intros Ht Hs Hn.
  unfold recommend_trail, bind. rewrite !get_trail_name_run.
  rewrite Ht, Hs, Hn. split; reflexivity.
Qed.

Lemma recommend_trail_sentinel_collision_witness :
  recommend_trail stub_loads (with_name (Some sentinel) stub)
    example_request []
  = (Returned (ErrorResult error_message),
     [Generate (name_prompt example_request)])
  /\ recommend_trail stub_loads (with_name (Some sentinel) stub)
       example_request []
     = recommend_trail stub_loads (with_name None stub) example_request [].
Proof.
  apply (recommend_trail_sentinel_collision stub_loads
           (with_name (Some sentinel) stub) (with_name None stub)
           example_request [] sentinel); reflexivity.
Defined.

(** C3, as the code has it: when the naming stage returns a name other
    than the sentinel, and the waypoint stage and the geocoding stage
    return, the pipeline returns a route result whose [route_name] is that
    name, unchanged.  (The name is as empty or not as the model's trimmed
    text.) *)
Theorem recommend_trail_route_name (json_loads : str -> option json)
    (W : providers) (req : TrailRequest) (log log1 log3 log4 : list call)
    (name : str) (waypoints : json) (coords : list coordinate) :
  get_trail_name_from_gemini W (distance req) (theme req)
    (latitude req) (longitude req) log = (Returned name, log1) ->
  name <> sentinel ->
  get_trail_waypoints_from_gemini json_loads W name
    (latitude req) (longitude req)
    (snd (get_trail_detail_from_gemini json_loads W name log1))
  = (Returned waypoints, log3) ->
  get_coordinates_for_waypoints W waypoints log3 = (Returned coords, log4) ->
  recommend_trail json_loads W req log
  = (Returned (RouteResult name coords), log4).
Proof.
  intros Hname Hne Hway Hcoords. unfold recommend_trail, bind.
  rewrite Hname.
  destruct (eqb name sentinel) eqn:E; [now apply eqb_eq in E|].
  destruct (get_trail_detail_run json_loads W name log1) as [detail Hd].
  rewrite Hd in *. cbn [snd] in Hway. now rewrite Hway, Hcoords.
Qed.

Lemma recommend_trail_route_name_witness :
  recommend_trail stub_loads stub example_request []
  = (Returned (RouteResult stub_name stub_coordinates), stub_log4).
Proof.
  apply (recommend_trail_route_name stub_loads stub example_request
           [] stub_log1 stub_log3 stub_log4 stub_name (JArr stub_labels)
           stub_coordinates).
  - reflexivity.
  - vm_compute. discriminate.
  - reflexivity.
  - reflexivity.
Defined.

(** C3 as worded fails: a model that answers the naming prompt with
    blanks makes the naming stage return the empty text, which is not the
    sentinel, and the result's [route_name] is empty. *)
Lemma recommend_trail_empty_name :
  fst (get_trail_name_from_gemini (with_name (Some (py "   ")) stub)
         (distance example_request) (theme example_request)
         (latitude example_request) (longitude example_request) [])
  = Returned []
  /\ [] <> sentinel
  /\ fst (recommend_trail stub_loads (with_name (Some (py "   ")) stub)
            example_request [])
     = Returned (RouteResult [] stub_coordinates).
Proof.
  split; [reflexivity|]. split; [discriminate|]. vm_compute. reflexivity.
Qed.

(** With no text for the waypoint prompt the pipeline raises, the name
    being there. *)
Example recommend_trail_raises :
  fst (recommend_trail stub_loads (with_no_waypoints stub)
         example_request []) = Raised.
Proof. reflexivity. Qed.

(** C2, as the code has it: when the model names the trail (with a text
    other than the sentinel) and proposes a list of labels, every label
    can be written to the console (none is a text with a lone surrogate)
    and the geocoder resolves every label, the result carries the naming
    stage's output as [route_name] and one (longitude, latitude) pair per
    label, in the order of the labels; the directions service is not
    called. *)
Theorem recommend_trail_end_to_end (json_loads : str -> option json)
    (W : providers) (req : TrailRequest) (log : list call)
    (text raw : str) (items : list (str * json)) (labels : list json)
    (found : list coordinate) :
  generate_content W log (name_prompt req) = Some text ->
  strip text <> sentinel ->
  (forall log' start,
      generate_content W log' (WaypointsPrompt (strip text) start)
      = Some raw) ->
  json_loads (clean_json_response raw) = Some (JObj items) ->
  assoc k_waypoints items = Some (JArr labels) ->
  forallb prints labels = true ->
  Forall2 (fun label c =>
             forall log', geocode_resolved
                            (requests_get W log' (Geocode label)) c)
          labels found ->
  exists log',
    recommend_trail json_loads W req log
    = (Returned (RouteResult (strip text) found), log')
    /\ List.length found = List.length labels
    /\ (forall c, In c log' -> is_directions c = true -> In c log).
Proof.
  unfold name_prompt. intros Ht Hne Hraw Hload Hget Hp Hgeo.
  exists (snd (recommend_trail json_loads W req log)).
  split; [|split].
  - rewrite (surjective_pairing (recommend_trail json_loads W req log))
      at 1.
    f_equal. unfold recommend_trail, bind.
    rewrite get_trail_name_run, Ht.
    destruct (eqb (strip text) sentinel) eqn:E; [now apply eqb_eq in E|].
    destruct (get_trail_detail_run json_loads W (strip text)
                (log ++ [Generate (NamePrompt (distance req) (theme req)
                                     (latitude req) (longitude req))]))
      as [detail ->].
    set (log2 := (log ++ _) ++ _).
    pose proof (get_trail_waypoints_run json_loads W (strip text)
                  (latitude req) (longitude req) log2 raw items
                  (JArr labels) Hraw Hload Hget) as Hw.
    destruct (get_trail_waypoints_from_gemini json_loads W (strip text)
                (latitude req) (longitude req) log2) as [out log3].
    cbn [fst] in Hw. subst out.
    unfold get_coordinates_for_waypoints.
    destruct Hgeo as [|label c labels found Hc Hrest].
    + reflexivity.
    + cbn [truthy negb iterate].
      now rewrite (geocode_each_all W (label :: labels) (c :: found) [] log3)
        by (assumption || now constructor).
  - symmetry. eapply Forall2_length, Hgeo.
  - destruct (recommend_trail_no_directions json_loads W req log)
      as (calls & -> & Hcalls).
    intros c Hin Hdir. apply in_app_or in Hin as [Hin|Hin]; [exact Hin|].
    rewrite forallb_forall in Hcalls. apply Hcalls in Hin.
    now rewrite Hdir in Hin.
Qed.

Lemma recommend_trail_end_to_end_witness :
  exists log',
    recommend_trail stub_loads stub example_request []
    = (Returned (RouteResult stub_name stub_coordinates), log')
    /\ List.length stub_coordinates = List.length stub_labels
    /\ (forall c, In c log' -> is_directions c = true -> In c []).
Proof.
  assert (Hgeo : forall label c address lat lng,
             (forall log', requests_get stub log' (Geocode label)
                           = Some (geocode_body address lat lng)) ->
             c = (JNum lng, JNum lat) ->
             forall log', geocode_resolved
                            (requests_get stub log' (Geocode label)) c).
  { intros label c address lat lng Hl -> log'. rewrite Hl.
    unfold geocode_resolved. do 5 eexists.
    repeat (split; [reflexivity|]). reflexivity. }
  apply (recommend_trail_end_to_end stub_loads stub example_request []
           stub_name waypoints_raw [(k_waypoints, JArr stub_labels)]
           stub_labels stub_coordinates).
  - reflexivity.
  - vm_compute. discriminate.
  - reflexivity.
  - reflexivity.
  - reflexivity.
  - reflexivity.
  - repeat constructor;
      (eapply Hgeo; [intros; reflexivity | reflexivity]).
Defined.

(** C2 as worded fails: in the stubbed scenario every provider succeeds,
    the directions stub answers with four steps, and the result carries
    three coordinates, one per proposed label. *)
Lemma recommend_trail_not_step_count :
  fst (recommend_trail stub_loads stub example_request [])
  = Returned (RouteResult stub_name stub_coordinates)
  /\ (forall log o d via,
         requests_get stub log (Directions o d via) = Some directions_body)
  /\ step_count directions_body = Some 4%nat
  /\ List.length stub_coordinates <> 4%nat.
Proof.
  split; [reflexivity|]. split; [reflexivity|]. split; [reflexivity|].
  discriminate.
Qed.

(** * Further properties of the code *)

(** ** Trimming and slicing *)

Lemma within_refl (x : str) : within x x.
Proof. exists [], []. simpl. now rewrite app_nil_r. Qed.

Lemma within_trans (x y z : str) : within x y -> within y z -> within x z.
Proof.
  intros (a & b & ->) (c & d & ->). exists (c ++ a), (b ++ d).
  now rewrite <- !app_assoc.
Qed.

Lemma slice_within (s : str) (lo hi : option Z) : within (slice s lo hi) s.
Proof.
  unfold slice. cbv zeta.
  match goal with
  | |- within (firstn ?n (skipn ?a s)) s =>
      exists (firstn a s), (skipn n (skipn a s))
  end.
  now rewrite !firstn_skipn.
Qed.

Lemma lstrip_within (s : str) : exists a, s = a ++ lstrip s.
Proof.
  induction s as [|c s [a IH]]; [now exists []|].
  simpl. destruct (isspace c); [|now exists []].
  exists (c :: a). simpl. now rewrite <- IH.
Qed.

Lemma rstrip_within (s : str) : exists b, s = rstrip s ++ b.
Proof.
  unfold rstrip. destruct (lstrip_within (rev s)) as [a E].
  exists (rev a). apply (f_equal (@rev N)) in E.
  now rewrite rev_involutive, rev_app_distr in E.
Qed.

Lemma strip_within (s : str) : within (strip s) s.
Proof.
  unfold strip. destruct (lstrip_within s) as [a Ea].
  destruct (rstrip_within (lstrip s)) as [b Eb].
  exists a, b. now rewrite <- Eb.
Qed.

Lemma lstrip_head (s r : str) (c : N) :
  lstrip s = c :: r -> isspace c = false.
Proof.
  induction s as [|x s IH]; simpl; [discriminate|].
  destruct (isspace x) eqn:E; [exact IH|].
  intros H. injection H as <- _. exact E.
Qed.

Lemma strip_head (s r : str) (c : N) :
  strip s = c :: r -> isspace c = false.
Proof.
  unfold strip. intros H. destruct (rstrip_within (lstrip s)) as [b E].
  rewrite H in E. simpl in E. now apply lstrip_head in E.
Qed.

Lemma strip_last (s r : str) (c : N) :
  strip s = r ++ [c] -> isspace c = false.
Proof.
  unfold strip, rstrip. intros H. apply (f_equal (@rev N)) in H.
  rewrite rev_involutive, rev_app_distr in H. simpl in H.
  now apply lstrip_head in H.
Qed.

(** [strip] leaves alone a text with no whitespace at either end. *)
Lemma strip_fixed (s : str) :
  (forall c r, s = c :: r -> isspace c = false) ->
  (forall c r, s = r ++ [c] -> isspace c = false) ->
  strip s = s.
Proof.
  intros Hhead Hlast. unfold strip, rstrip.
  assert (El : lstrip s = s).
  { destruct s as [|c r]; [reflexivity|].
    apply lstrip_keep. now apply (Hhead c r). }
  rewrite El.
  assert (Er : lstrip (rev s) = rev s).
  { destruct (rev s) as [|c r] eqn:E; [reflexivity|].
    apply lstrip_keep. apply (Hlast c (rev r)).
    apply (f_equal (@rev N)) in E. now rewrite rev_involutive in E. }
  rewrite Er. apply rev_involutive.
Qed.

Lemma strip_idempotent (s : str) : strip (strip s) = strip s.
Proof.
  apply strip_fixed; intros c r H.
  - now apply strip_head in H.
  - now apply strip_last in H.
Qed.

Lemma slice_empty {A} (s : list A) (a b : Z) :
  (0 <= a)%Z -> (0 <= b)%Z -> (b <= a)%Z ->
  slice s (Some a) (Some b) = [].
Proof.
  intros Ha Hb Hab. unfold slice, slice_bound.
  destruct (Z.ltb_spec a 0); [lia|]. destruct (Z.ltb_spec b 0); [lia|].
  replace (Z.to_nat (Z.min b (len s) - Z.min a (len s))) with 0%nat by lia.
  reflexivity.
Qed.

(** ** More on the response extractor *)

Lemma app_eq_first_strong (c : N) (p r pre rest : str) :
  p ++ r = pre ++ c :: rest -> ~ In c p ->
  exists pre', pre = p ++ pre' /\ r = pre' ++ c :: rest.
Proof.
  revert pre; induction p as [|y p IH]; intros pre E Hc.
  - now exists pre.
  - destruct pre as [|z pre]; simpl in E; injection E as -> E.
    + exfalso; apply Hc; now left.
    + destruct (IH pre E) as (pre' & -> & ->);
        [intros H; apply Hc; now right|].
      now exists pre'.
Qed.

Lemma app_eq_last_strong (c : N) (r q pre post : str) :
  r ++ q = pre ++ c :: post -> ~ In c q ->
  exists post', post = post' ++ q /\ r = pre ++ c :: post'.
Proof.
  intros E Hc. apply (f_equal (@rev N)) in E.
  rewrite !rev_app_distr in E. simpl in E. rewrite <- app_assoc in E.
  simpl in E.
  apply app_eq_first_strong in E as (a & Ea & Er);
    [|now rewrite <- in_rev].
  exists (rev a). split.
  - apply (f_equal (@rev N)) in Ea.
    now rewrite rev_involutive, rev_app_distr, rev_involutive in Ea.
  - apply (f_equal (@rev N)) in Er.
    rewrite rev_involutive, rev_app_distr in Er. simpl in Er.
    now rewrite rev_involutive, <- app_assoc in Er.
Qed.

Lemma fence_json_no_brace (c : N) :
  c = lbrace_char \/ c = rbrace_char -> ~ In c fence_json.
Proof.
  intros [->| ->] H; simpl in H;
    repeat (destruct H as [H|H]; [discriminate|]); easy.
Qed.

Lemma fence_no_brace (c : N) :
  c = lbrace_char \/ c = rbrace_char -> ~ In c fence.
Proof.
  intros [->| ->] H; simpl in H;
    repeat (destruct H as [H|H]; [discriminate|]); easy.
Qed.

(** What is left of [u ++ c :: v] once a leading [p] without [c] went. *)
Lemma leading_keeps_first (p s r u v : str) (c : N) :
  without_leading p s r -> ~ In c p -> s = u ++ c :: v ->
  exists u', r = u' ++ c :: v /\ (u = u' \/ u = p ++ u').
Proof.
  intros [r' -> | _] Hp E.
  - destruct (app_eq_first_strong _ _ _ _ _ E Hp) as (u' & -> & ->).
    exists u'. auto.
  - exists u. auto.
Qed.

(** What is left of [u ++ c :: v] once a trailing [q] without [c] went. *)
Lemma trailing_keeps_last (q s r u v : str) (c : N) :
  without_trailing q s r -> ~ In c q -> s = u ++ c :: v ->
  exists v', r = u ++ c :: v' /\ (v = v' \/ v = v' ++ q).
Proof.
  intros [r' -> | _] Hq E.
  - destruct (app_eq_last_strong _ _ _ _ _ E Hq) as (v' & -> & ->).
    exists v'. auto.
  - exists v. auto.
Qed.

(** The text between the first opening brace and the last closing brace
    of the whole input is what comes back. *)
Lemma clean_widest (text pre mid post : str) :
  text = pre ++ lbrace_char :: mid ++ rbrace_char :: post ->
  ~ In lbrace_char pre -> ~ In rbrace_char post ->
  clean_json_response text = lbrace_char :: mid ++ [rbrace_char].
Proof.
  intros E Hpre Hpost.
  destruct (without_leading_total fence_json text) as [t1 H1].
  destruct (without_leading_total fence t1) as [t2 H2].
  destruct (without_trailing_total fence t2) as [t3 H3].
  destruct (leading_keeps_first _ _ _ _ _ lbrace_char H1
              (fence_json_no_brace _ (or_introl eq_refl)) E)
    as (u1 & E1 & Hu1).
  destruct (leading_keeps_first _ _ _ _ _ lbrace_char H2
              (fence_no_brace _ (or_introl eq_refl)) E1)
    as (u2 & E2 & Hu2).
  assert (Hu : ~ In lbrace_char u2).
  { intros H. apply Hpre.
    destruct Hu1 as [->| ->], Hu2 as [->| ->];
      repeat (apply in_or_app; right); exact H. }
  replace (u2 ++ lbrace_char :: mid ++ rbrace_char :: post)
    with ((u2 ++ lbrace_char :: mid) ++ rbrace_char :: post) in E2
    by (now rewrite <- app_assoc).
  destruct (trailing_keeps_last _ _ _ _ _ rbrace_char H3
              (fence_no_brace _ (or_intror eq_refl)) E2)
    as (v3 & E3 & Hv3).
  assert (Hv : ~ In rbrace_char v3).
  { intros H. apply Hpost. destruct Hv3 as [->| ->]; [exact H|].
    apply in_or_app; now left. }
  rewrite <- app_assoc in E3.
  exact (clean_span _ _ _ _ _ _ _ H1 H2 H3 E3 Hu Hv).
Qed.

(** X1: The result is a contiguous part of the input: the extractor removes
    text at both ends and writes none. *)
Theorem clean_json_response_within (text : str) :
  within (clean_json_response text) text.
Proof.
  assert (Hif : forall (b : bool) (s : str) lo hi,
             within (if b then slice s lo hi else s) s).
  { intros [|] s lo hi; [apply slice_within|apply within_refl]. }
  unfold clean_json_response. cbv zeta.
  eapply within_trans; [apply strip_within|].
  eapply within_trans; [apply Hif|].
  eapply within_trans; [apply Hif|].
  eapply within_trans; [apply Hif|]. apply Hif.
Qed.

(** X2: A result that is not empty begins and ends with a character that is
    not whitespace. *)
Theorem clean_json_response_trimmed (text r : str) (c : N) :
  clean_json_response text = c :: r ->
  isspace c = false
  /\ exists r' d, clean_json_response text = r' ++ [d] /\ isspace d = false.
Proof.
  intros H. split; [exact (strip_head _ _ _ H)|].
  assert (Hne : c :: r <> []) by discriminate.
  destruct (exists_last Hne) as (r' & d & E).
  exists r', d. rewrite H. split; [exact E|].
  rewrite E in H. exact (strip_last _ _ _ H).
Qed.

Lemma clean_json_response_trimmed_witness :
  isspace 97 = false
  /\ exists r' d, clean_json_response (py "```  abc d  ") = r' ++ [d]
                  /\ isspace d = false.
Proof.
  apply (clean_json_response_trimmed (py "```  abc d  ") (py "bc d") 97).
  reflexivity.
Defined.

(** X3: When every closing brace comes before the first opening brace the
    result is empty: the slice runs from a higher index to a lower one. *)
Theorem clean_json_response_inverted (text u v : str) :
  text = u ++ lbrace_char :: v ->
  ~ In lbrace_char u -> ~ In rbrace_char v -> In rbrace_char u ->
  clean_json_response text = [].
Proof.
  intros E Hu Hv Hin.
  destruct (without_leading_total fence_json text) as [t1 H1].
  destruct (without_leading_total fence t1) as [t2 H2].
  destruct (without_trailing_total fence t2) as [t3 H3].
  destruct (leading_keeps_first _ _ _ _ _ lbrace_char H1
              (fence_json_no_brace _ (or_introl eq_refl)) E)
    as (u1 & E1 & Hu1).
  destruct (leading_keeps_first _ _ _ _ _ lbrace_char H2
              (fence_no_brace _ (or_introl eq_refl)) E1)
    as (u2 & E2 & Hu2).
  assert (Hu' : ~ In lbrace_char u2 /\ In rbrace_char u2).
  { split.
    - intros H. apply Hu.
      destruct Hu1 as [->| ->], Hu2 as [->| ->];
        repeat (apply in_or_app; right); exact H.
    - destruct Hu1 as [->| ->], Hu2 as [->| ->]; try exact Hin;
        repeat (apply in_app_or in Hin as [Hin|Hin];
                [exfalso;
                 first [ now apply (fence_json_no_brace rbrace_char) in Hin; auto
                       | now apply (fence_no_brace rbrace_char) in Hin; auto ]
                |]); exact Hin. }
  destruct Hu' as [Hu2' Hin2].
  pose proof (fence_no_brace lbrace_char (or_introl eq_refl)) as Hq.
  assert (E3 : exists v3, t3 = u2 ++ lbrace_char :: v3
                          /\ ~ In rbrace_char v3).
  { destruct H3 as [r' E3 | _].
    - rewrite E2 in E3. symmetry in E3.
      destruct (app_eq_last_strong _ _ _ _ _ E3 Hq) as (v3 & -> & ->).
      exists v3. split; [reflexivity|].
      intros H. apply Hv. apply in_or_app; now left.
    - now exists v. }
  destruct E3 as (v3 & E3 & Hv3).
  destruct (split_last _ _ Hin2) as (w & w' & -> & Hw').
  rewrite (clean_json_response_unfenced _ _ _ _ H1 H2 H3).
  assert (Hf : find t3 lbrace = len (w ++ rbrace_char :: w'))
    by (rewrite E3; now apply find_first).
  assert (Hr : rfind t3 rbrace = len w).
  { rewrite E3, <- app_assoc. cbn [app]. apply rfind_last.
    intros H. apply in_app_or in H as [H|[H|H]];
      [now apply Hw'|discriminate|now apply Hv3]. }
  rewrite Hf, Hr, len_app, len_cons.
  pose proof (len_nonneg w). pose proof (len_nonneg w').
  destruct (Z.eqb_spec (len w + (1 + len w')) (-1)); [lia|].
  destruct (Z.eqb_spec (len w + 1) 0); [lia|].
  cbn [negb andb]. now rewrite slice_empty by lia.
Qed.

Lemma clean_json_response_inverted_witness :
  clean_json_response (py "done} and then {") = [].
Proof.
  apply (clean_json_response_inverted (py "done} and then {")
           (py "done} and then ") []).
  - reflexivity.
  - vm_compute. intuition discriminate.
  - easy.
  - vm_compute. intuition.
Defined.

(** X4: Text before the opening brace and after the closing brace does not
    count: around a text that holds a brace pair, a prefix without an
    opening brace and a suffix without a closing brace (prose, fences)
    leave the result as it is. *)
Theorem clean_json_response_surroundings (a body b : str) :
  has_span body -> ~ In lbrace_char a -> ~ In rbrace_char b ->
  clean_json_response (a ++ body ++ b) = clean_json_response body.
Proof.
  intros Hspan Ha Hb.
  destruct (has_span_widest _ Hspan) as (pre & mid & post & -> & Hpre & Hpost).
  rewrite (clean_widest _ pre mid post eq_refl Hpre Hpost).
  apply (clean_widest _ (a ++ pre) mid (post ++ b)).
  - rewrite <- !app_assoc. cbn [app]. rewrite <- app_assoc. reflexivity.
  - intros H. apply in_app_or in H as [H|H]; auto.
  - intros H. apply in_app_or in H as [H|H]; auto.
Qed.

Lemma clean_json_response_surroundings_witness :
  clean_json_response
    (py "Here you go: ```json " ++ fenced_example_object ++ py " ``` bye")
  = clean_json_response fenced_example_object.
Proof.
  apply (clean_json_response_surroundings (py "Here you go: ```json ")
           fenced_example_object (py " ``` bye")).
  - exists [], fenced_example_body, []. reflexivity.
  - vm_compute. intuition discriminate.
  - vm_compute. intuition discriminate.
Defined.

(** ** The generation stages *)

(** X5: The naming stage never raises and makes one call to the model.
    What it returns is the text of the model, trimmed, when the model gives
    one, and the sentinel otherwise; either way a name with no whitespace
    at its ends. *)
Theorem get_trail_name_trimmed (W : providers) (d t : str) (la lo : Q)
    (log : list call) :
  exists name,
    get_trail_name_from_gemini W d t la lo log
    = (Returned name, log ++ [Generate (NamePrompt d t la lo)])
    /\ match generate_content W log (NamePrompt d t la lo) with
       | Some text => name = strip text
       | None => name = sentinel
       end
    /\ strip name = name.
Proof.
  rewrite get_trail_name_run. eexists. split; [reflexivity|].
  destruct (generate_content W log (NamePrompt d t la lo)).
  - split; [reflexivity|apply strip_idempotent].
  - split; reflexivity.
Qed.

(** X6: The detail stage absorbs its failures: with no text from the model,
    or a text the decoder rejects, it returns the empty dict. *)
Theorem get_trail_detail_failure (json_loads : str -> option json)
    (W : providers) (name : str) (log : list call) :
  generate_content W log (DetailPrompt name) = None
  \/ (exists raw, generate_content W log (DetailPrompt name) = Some raw
                  /\ json_loads (clean_json_response raw) = None) ->
  get_trail_detail_from_gemini json_loads W name log
  = (Returned (JObj []), log ++ [Generate (DetailPrompt name)]).
Proof.
  unfold get_trail_detail_from_gemini, bind, call_model.
  intros [-> | (raw & -> & ->)]; reflexivity.
Qed.

Lemma get_trail_detail_failure_witness :
  get_trail_detail_from_gemini stub_loads
    (override (on_detail (Some (py "I cannot help with that."))) keep stub)
    stub_name []
  = (Returned (JObj []), [Generate (DetailPrompt stub_name)]).
Proof.
  apply (get_trail_detail_failure stub_loads
           (override (on_detail (Some (py "I cannot help with that.")))
              keep stub) stub_name []).
  right. eexists. split; reflexivity.
Defined.

Lemma start_location_fallback (data : option json) :
  geocode_failed data -> start_location_of data = JStr starting_point.
Proof.
  intros [-> | (body & -> & H)]; [reflexivity|].
  unfold start_location_of. cbn [obind].
  destruct (getitem body k_status) as [status|]; [|reflexivity].
  cbn [obind]. destruct (is_str status OK) eqn:E; [|reflexivity].
  apply is_str_true in E. now subst.
Qed.

Lemma get_trail_waypoints_calls (json_loads : str -> option json)
    (W : providers) (name : str) (la lo : Q) (log : list call) :
  snd (get_trail_waypoints_from_gemini json_loads W name la lo log)
  = log ++ [Get (ReverseGeocode la lo);
            Generate (WaypointsPrompt name
                        (start_location_of
                           (requests_get W log (ReverseGeocode la lo))))].
Proof.
  unfold get_trail_waypoints_from_gemini, bind, call_maps, call_model.
  cbn.
  destruct (generate_content W _ _) as [raw|];
    [|now rewrite <- app_assoc].
  destruct (json_loads (clean_json_response raw)) as [[]|];
    cbn; now rewrite <- app_assoc.
Qed.

(** X7: When the reverse geocoding of the origin fails, the waypoint prompt
    is built with the label ["Starting Point"]. *)
Theorem get_trail_waypoints_fallback_label (json_loads : str -> option json)
    (W : providers) (name : str) (la lo : Q) (log : list call) :
  geocode_failed (requests_get W log (ReverseGeocode la lo)) ->
  snd (get_trail_waypoints_from_gemini json_loads W name la lo log)
  = log ++ [Get (ReverseGeocode la lo);
            Generate (WaypointsPrompt name (JStr starting_point))].
Proof.
  intros H. rewrite get_trail_waypoints_calls.
  now rewrite (start_location_fallback _ H).
Qed.

Lemma get_trail_waypoints_fallback_label_witness :
  snd (get_trail_waypoints_from_gemini stub_loads
         (override keep (on_reverse (Some (failure_body "ZERO_RESULTS")))
            stub)
         stub_name (latitude example_request) (longitude example_request) [])
  = [Get (ReverseGeocode (latitude example_request)
            (longitude example_request));
     Generate (WaypointsPrompt stub_name (JStr starting_point))].
Proof.
  apply (get_trail_waypoints_fallback_label stub_loads
           (override keep (on_reverse (Some (failure_body "ZERO_RESULTS")))
              stub)
           stub_name (latitude example_request) (longitude example_request)
           []).
  right. eexists. split; [reflexivity|]. vm_compute. discriminate.
Defined.

(** X8: When the reverse geocoding succeeds, the waypoint prompt is built with
    the formatted address of its first result. *)
Theorem get_trail_waypoints_start_label (json_loads : str -> option json)
    (W : providers) (name : str) (la lo : Q) (log : list call)
    (body first address : json) (others : list json) :
  requests_get W log (ReverseGeocode la lo) = Some body ->
  getitem body k_status = Some (JStr OK) ->
  getitem body k_results = Some (JArr (first :: others)) ->
  getitem first k_formatted_address = Some address ->
  snd (get_trail_waypoints_from_gemini json_loads W name la lo log)
  = log ++ [Get (ReverseGeocode la lo);
            Generate (WaypointsPrompt name address)].
Proof.
  intros Hb Hst Hres Haddr. rewrite get_trail_waypoints_calls, Hb.
  unfold start_location_of. cbn [obind]. rewrite Hst. cbn [obind].
  rewrite is_str_refl, Hres. cbn [obind getindex].
  rewrite index_first. cbn [obind]. now rewrite Haddr.
Qed.

Lemma get_trail_waypoints_start_label_witness :
  snd (get_trail_waypoints_from_gemini stub_loads stub stub_name
         (latitude example_request) (longitude example_request) [])
  = [Get (ReverseGeocode (latitude example_request)
            (longitude example_request));
     Generate (WaypointsPrompt stub_name (JStr city_hall))].
Proof.
  eapply (get_trail_waypoints_start_label stub_loads stub stub_name
            (latitude example_request) (longitude example_request) []);
    reflexivity.
Defined.

(** X9: With no text from the model for its prompt, the waypoint stage does
    not return the empty list: its handler raises, after the two calls. *)
Theorem get_trail_waypoints_no_text (json_loads : str -> option json)
    (W : providers) (name : str) (la lo : Q) (log : list call) :
  generate_content W (log ++ [Get (ReverseGeocode la lo)])
    (WaypointsPrompt name
       (start_location_of (requests_get W log (ReverseGeocode la lo))))
  = None ->
  get_trail_waypoints_from_gemini json_loads W name la lo log
  = (Raised,
     log ++ [Get (ReverseGeocode la lo);
             Generate (WaypointsPrompt name
                         (start_location_of
                            (requests_get W log (ReverseGeocode la lo))))]).
Proof.
  intros H. unfold get_trail_waypoints_from_gemini, bind, call_maps,
    call_model. cbn. rewrite H. unfold raise. now rewrite <- app_assoc.
Qed.

Lemma get_trail_waypoints_no_text_witness :
  get_trail_waypoints_from_gemini stub_loads (with_no_waypoints stub)
    stub_name (latitude example_request) (longitude example_request) []
  = (Raised,
     [Get (ReverseGeocode (latitude example_request)
             (longitude example_request));
      Generate (WaypointsPrompt stub_name (JStr city_hall))]).
Proof.
  apply (get_trail_waypoints_no_text stub_loads (with_no_waypoints stub)
           stub_name (latitude example_request) (longitude example_request)
           []).
  reflexivity.
Defined.

(** X10: With a text from the model that the decoder rejects, that decodes to
    something other than an object, or to an object without the key
    [waypoints], the waypoint stage returns the empty list. *)
Theorem get_trail_waypoints_no_list (json_loads : str -> option json)
    (W : providers) (name : str) (la lo : Q) (log : list call) (raw : str) :
  generate_content W (log ++ [Get (ReverseGeocode la lo)])
    (WaypointsPrompt name
       (start_location_of (requests_get W log (ReverseGeocode la lo))))
  = Some raw ->
  json_loads (clean_json_response raw) = None
  \/ (exists v, json_loads (clean_json_response raw) = Some v
                /\ forall items, v <> JObj items)
  \/ (exists items, json_loads (clean_json_response raw) = Some (JObj items)
                    /\ assoc k_waypoints items = None) ->
  fst (get_trail_waypoints_from_gemini json_loads W name la lo log)
  = Returned (JArr []).
Proof.
  intros Hraw H. unfold get_trail_waypoints_from_gemini, bind, call_maps,
    call_model. cbn. rewrite Hraw.
  destruct H as [-> | [(v & -> & Hv) | (items & -> & ->)]];
    [reflexivity| |reflexivity].
  destruct v; try reflexivity. now elim (Hv items).
Qed.

Lemma get_trail_waypoints_no_list_witness :
  fst (get_trail_waypoints_from_gemini stub_loads
         (override (on_waypoints (Some detail_raw)) keep stub)
         stub_name (latitude example_request) (longitude example_request) [])
  = Returned (JArr []).
Proof.
  apply (get_trail_waypoints_no_list stub_loads
           (override (on_waypoints (Some detail_raw)) keep stub)
           stub_name (latitude example_request) (longitude example_request)
           [] detail_raw).
  - reflexivity.
  - right. right. exists [(py "trail_name", JStr stub_name)].
    split; vm_compute; reflexivity.
Defined.

(** ** More on the route resolver *)

Lemma two_or_more {A} (l : list A) :
  (2 <= len l)%Z -> exists first middle last, l = first :: middle ++ [last].
Proof.
  destruct l as [|x l]; [unfold len; simpl; lia|].
  rewrite len_cons. intros H.
  assert (Hne : l <> []) by (intros ->; unfold len in H; simpl in H; lia).
  destruct (exists_last Hne) as (middle & last & ->).
  now exists x, middle, last.
Qed.

Lemma key_verified_dec (data : option json) :
  key_verified data \/ ~ key_verified data.
Proof.
  destruct data as [body|]; [|right; intros (b & H & _); discriminate].
  destruct (getitem body k_status) as [status|] eqn:Est.
  - destruct (is_str status OK) eqn:E.
    + left. exists body. apply is_str_true in E. now subst.
    + right. intros (b & Hb & Hs). injection Hb as <-.
      rewrite Est in Hs. injection Hs as ->. now rewrite is_str_refl in E.
  - right. intros (b & Hb & Hs). injection Hb as <-.
    rewrite Est in Hs. discriminate.
Qed.

Lemma resolver_short (W : providers) (waypoints : list json)
    (log : list call) :
  (len waypoints < 2)%Z ->
  get_directions_coordinates_from_waypoints W waypoints log
  = (Returned [], log).
Proof.
  intros H. unfold get_directions_coordinates_from_waypoints.
  destruct (Z.ltb_spec (len waypoints) 2); [reflexivity|lia].
Qed.

Lemma resolver_unverified (W : providers) (waypoints : list json)
    (log : list call) :
  (2 <= len waypoints)%Z ->
  ~ key_verified (requests_get W log VerifyKey) ->
  get_directions_coordinates_from_waypoints W waypoints log
  = (Returned [], log ++ [Get VerifyKey]).
Proof.
  intros Hlen Hkey. unfold get_directions_coordinates_from_waypoints.
  destruct (Z.ltb_spec (len waypoints) 2); [lia|].
  unfold bind, call_maps.
  destruct (requests_get W log VerifyKey) as [body|]; [|reflexivity].
  cbn [obind]. destruct (getitem body k_status) as [status|] eqn:Est;
    [|reflexivity].
  destruct (is_str status OK) eqn:Eok; [|reflexivity].
  exfalso. apply Hkey. exists body. split; [reflexivity|].
  now rewrite Est, (is_str_true _ _ Eok).
Qed.

Lemma join_texts (middle : list json) :
  match middle with
  | [] => Some []
  | _ :: _ => option_map (join pipe) (texts middle)
  end
  = option_map (join pipe) (texts middle).
Proof. now destruct middle. Qed.

(** X11: The route resolver issues no call, the verification request
    alone, or the verification request followed by one directions request.
    It raises in one case only: two waypoints or more, the key verified,
    and between the first and the last waypoint a value that is not a
    text, on which the join of the request parameters fails. *)
Theorem directions_outcome (W : providers) (waypoints : list json)
    (log : list call) :
  exists result log',
    get_directions_coordinates_from_waypoints W waypoints log
    = (result, log')
    /\ resolver_log log log'
    /\ (result = Raised
        <-> (2 <= len waypoints)%Z
            /\ key_verified (requests_get W log VerifyKey)
            /\ texts (slice waypoints (Some 1%Z) (Some (-1)%Z)) = None).
Proof.
  destruct (Z.lt_ge_cases (len waypoints) 2) as [Hshort|Hlong].
  - exists (Returned []), log. split; [now apply resolver_short|].
    split; [now left|]. split; [discriminate|]. intros (H & _). lia.
  - destruct (key_verified_dec (requests_get W log VerifyKey)) as [Hk|Hk].
    + destruct (two_or_more _ Hlong) as (o & mid & d & ->).
      rewrite (resolver_run _ _ _ _ _ Hk), join_texts, slice_inner.
      destruct (texts mid) as [parts|]; cbn [option_map].
      * destruct (prints o && prints d && forallb prints mid);
          do 2 eexists; (split; [reflexivity|]);
          (split; [|split; [discriminate|now intros (_ & _ & H)]]).
        -- right. right. now do 3 eexists.
        -- right. now left.
      * do 2 eexists. split; [reflexivity|].
        split; [right; now left|]. now split.
    + exists (Returned []), (log ++ [Get VerifyKey]).
      split; [now apply resolver_unverified|]. split; [right; now left|].
      split; [discriminate|]. now intros (_ & H & _).
Qed.

(** X12: With the key verified and text waypoints that the console can
    print, a directions request that raises or comes back with a status
    other than ["OK"] gives the empty sequence, after both requests. *)
Theorem directions_failure (W : providers) (origin destination : str)
    (middle : list str) (log : list call) :
  key_verified (requests_get W log VerifyKey) ->
  forallb printable (origin :: middle ++ [destination]) = true ->
  directions_failed
    (requests_get W (log ++ [Get VerifyKey])
       (Directions (JStr origin) (JStr destination) (join pipe middle))) ->
  get_directions_coordinates_from_waypoints W
    (values (origin :: middle ++ [destination])) log
  = (Returned [],
     log ++ [Get VerifyKey;
             Get (Directions (JStr origin) (JStr destination)
                    (join pipe middle))]).
Proof.
  intros Hk Hp Hf. rewrite (resolver_run_texts _ _ _ _ _ Hk Hp).
  destruct Hf as [-> | (body & -> & Hst)]; [reflexivity|].
  cbn [obind]. unfold directions_coordinates.
  destruct (getitem body k_status) as [status|]; [|reflexivity].
  cbn [obind]. destruct (is_str status OK) eqn:E; [|reflexivity].
  apply is_str_true in E. now subst.
Qed.

Lemma directions_failure_witness :
  get_directions_coordinates_from_waypoints
    (override keep (on_directions (Some (failure_body "NOT_FOUND"))) stub)
    (values [city_hall; palace; city_hall]) []
  = (Returned [],
     [Get VerifyKey;
      Get (Directions (JStr city_hall) (JStr city_hall) palace)]).
Proof.
  apply (directions_failure
           (override keep (on_directions (Some (failure_body "NOT_FOUND")))
              stub)
           city_hall city_hall [palace] []).
  - eexists. split; reflexivity.
  - reflexivity.
  - right. eexists. split; [reflexivity|]. vm_compute. discriminate.
Defined.

Lemma route_path_length (legs : list (list Step)) :
  Forall (fun steps => steps <> []) legs ->
  List.length (route_path legs)
  = (List.length (List.concat legs) + List.length legs)%nat.
Proof.
  induction 1 as [|steps legs Hne _ IH]; [reflexivity|].
  unfold route_path in *. cbn [flat_map List.concat List.length].
  rewrite !length_app, IH, (leg_path_length _ Hne). lia.
Qed.

(** X13: On a success response whose legs each have a step, for text
    waypoints that the console can print, the resolver returns as many
    coordinates as the route has steps, plus one per leg. *)
Theorem directions_length (W : providers) (origin destination : str)
    (middle : list str) (log : list call) (data : json)
    (legs : list (list Step)) :
  key_verified (requests_get W log VerifyKey) ->
  forallb printable (origin :: middle ++ [destination]) = true ->
  requests_get W (log ++ [Get VerifyKey])
    (Directions (JStr origin) (JStr destination) (join pipe middle))
  = Some data ->
  is_route data legs ->
  Forall (fun steps => steps <> []) legs ->
  exists coordinates,
    fst (get_directions_coordinates_from_waypoints W
           (values (origin :: middle ++ [destination])) log)
    = Returned coordinates
    /\ List.length coordinates
       = (List.length (List.concat legs) + List.length legs)%nat.
Proof.
  intros Hk Hp Hd Hroute Hne. rewrite (resolver_run_texts _ _ _ _ _ Hk Hp), Hd.
  cbn [obind fst]. rewrite (directions_coordinates_path _ _ Hroute Hne).
  eexists. split; [reflexivity|]. now apply route_path_length.
Qed.

Lemma omap_list_none {A B} (f : A -> option B) (l : list A) (x : A) :
  In x l -> f x = None -> omap_list f l = None.
Proof.
  intros Hin Hx. induction l as [|a l IH]; [easy|].
  cbn [omap_list]. destruct Hin as [->|Hin].
  - now rewrite Hx.
  - destruct (f a); [|reflexivity]. cbn [obind]. now rewrite (IH Hin).
Qed.

(** X14: One leg without steps spoils the whole route: the resolver
    returns the empty sequence, not the coordinates of the other legs. *)
Theorem directions_leg_without_steps_discards (W : providers)
    (origin destination : str) (middle : list str) (log : list call)
    (data route leg : json) (others items : list json) :
  key_verified (requests_get W log VerifyKey) ->
  requests_get W (log ++ [Get VerifyKey])
    (Directions (JStr origin) (JStr destination) (join pipe middle))
  = Some data ->
  getitem data k_status = Some (JStr OK) ->
  getitem data k_routes = Some (JArr (route :: others)) ->
  getitem route k_legs = Some (JArr items) ->
  In leg items ->
  getitem leg k_steps = Some (JArr []) ->
  fst (get_directions_coordinates_from_waypoints W
         (values (origin :: middle ++ [destination])) log)
  = Returned [].
Proof.
  intros Hk Hd Hst Hr Hl Hin Hleg.
  rewrite values_ends, (resolver_run _ _ _ _ _ Hk), join_texts, texts_values.
  cbn [option_map].
  destruct (prints (JStr origin) && prints (JStr destination)
            && forallb prints (values middle)); [|reflexivity].
  rewrite Hd. cbn [obind fst].
  unfold directions_coordinates. rewrite Hst. cbn [obind].
  rewrite is_str_refl, Hr. cbn [obind getindex]. rewrite index_first.
  cbn [obind]. rewrite Hl. cbn [obind iterate].
  rewrite (omap_list_none leg_coordinates items leg Hin); [reflexivity|].
  unfold leg_coordinates. rewrite Hleg. reflexivity.
Qed.

Lemma stub_is_route : is_route directions_body stub_legs.
Proof.
  assert (Hloc : forall lat lng, is_location (location_json lat lng)
                                   (loc lat lng))
    by (intros; split; reflexivity).
  assert (Hstep : forall a b la lb,
             is_location a la -> is_location b lb ->
             is_step (step_json a b) {| step_start := la; step_end := lb |}).
  { intros a b la lb Ha Hb. exists a, b.
    split; [reflexivity|]. split; [exact Ha|]. split; [reflexivity|exact Hb]. }
  split; [reflexivity|]. do 3 eexists. split; [reflexivity|].
  split; [reflexivity|].
  repeat constructor; eexists; (split; [reflexivity|]);
    repeat constructor; apply Hstep; apply Hloc.
Qed.

Lemma directions_length_witness :
  exists coordinates,
    fst (get_directions_coordinates_from_waypoints stub
           (values [city_hall; palace; city_hall]) [])
    = Returned coordinates
    /\ List.length coordinates = 6%nat.
Proof.
  apply (directions_length stub city_hall city_hall [palace] []
           directions_body stub_legs).
  - eexists. split; reflexivity.
  - reflexivity.
  - reflexivity.
  - exact stub_is_route.
  - repeat constructor; discriminate.
Defined.

Lemma directions_leg_without_steps_discards_witness :
  fst (get_directions_coordinates_from_waypoints
         (override keep (on_directions (Some broken_directions_body)) stub)
         (values [city_hall; palace; city_hall]) [])
  = Returned [].
Proof.
  apply (directions_leg_without_steps_discards
           (override keep (on_directions (Some broken_directions_body)) stub)
           city_hall city_hall [palace] []
           broken_directions_body broken_route broken_leg []
           [JObj [(k_steps, JArr [step_json p0 p1; step_json p1 p2])];
            broken_leg]).
  - eexists. split; reflexivity.
  - reflexivity.
  - reflexivity.
  - reflexivity.
  - reflexivity.
  - right. now left.
  - reflexivity.
Defined.



(** ** More on the batch geocoder *)

(** X15: When every label can be written to the console (none is a text
    with a lone surrogate) and every label resolves, the batch returns the
    points in the order of the labels, after one request per label. *)
Theorem coordinates_all_resolved (W : providers) (labels : list json)
    (found : list coordinate) (log : list call) :
  forallb prints labels = true ->
  Forall2 (fun label c =>
             forall log', geocode_resolved
                            (requests_get W log' (Geocode label)) c)
          labels found ->
  get_coordinates_for_waypoints W (JArr labels) log
  = (Returned found, log ++ geocode_calls labels).
Proof.
  intros Hp H. unfold get_coordinates_for_waypoints.
  destruct H as [|label c labels found Hc Hrest].
  - cbn. now rewrite app_nil_r.
  - cbn [truthy negb iterate].
    now rewrite (geocode_each_all W (label :: labels) (c :: found) [] log)
      by (assumption || now constructor).
Qed.

Lemma stub_resolves :
  Forall2 (fun label c =>
             forall log', geocode_resolved
                            (requests_get stub log' (Geocode label)) c)
          stub_labels stub_coordinates.
Proof.
  assert (Hgeo : forall label c address lat lng,
             (forall log', requests_get stub log' (Geocode label)
                           = Some (geocode_body address lat lng)) ->
             c = (JNum lng, JNum lat) ->
             forall log', geocode_resolved
                            (requests_get stub log' (Geocode label)) c).
  { intros label c address lat lng Hl -> log'. rewrite Hl.
    unfold geocode_resolved. do 5 eexists.
    repeat (split; [reflexivity|]). reflexivity. }
  repeat constructor; (eapply Hgeo; [intros; reflexivity | reflexivity]).
Qed.

Lemma coordinates_all_resolved_witness :
  get_coordinates_for_waypoints stub (JArr stub_labels) []
  = (Returned stub_coordinates, geocode_calls stub_labels).
Proof.
  apply (coordinates_all_resolved stub stub_labels stub_coordinates []).
  - reflexivity.
  - exact stub_resolves.
Defined.

Lemma geocode_each_shape (W : providers) (todo : list json)
    (coordinates : list coordinate) (log : list call) :
  exists result visited rest,
    geocode_each W todo coordinates log
    = (Returned result, log ++ geocode_calls visited)
    /\ todo = visited ++ rest
    /\ (result = []
        \/ (List.length result
            = (List.length coordinates + List.length todo)%nat
            /\ rest = [])).
Proof.
  revert coordinates log.
  induction todo as [|a todo IH]; intros coordinates log.
  - exists coordinates, [], []. cbn. rewrite app_nil_r.
    split; [reflexivity|]. split; [reflexivity|]. right. split; [lia|easy].
  - cbn [geocode_each]. destruct (prints a).
    + unfold bind, call_maps.
      destruct (geocoded (requests_get W log (Geocode a))) as [c|].
      * destruct (IH (coordinates ++ [c]) (log ++ [Get (Geocode a)]))
          as (result & visited & rest & E & Ht & Hr).
        exists result, (a :: visited), rest. rewrite E.
        split; [now rewrite <- app_assoc|]. split; [now rewrite Ht|].
        destruct Hr as [->|[Hlen ->]]; [now left|right].
        split; [|reflexivity]. rewrite Hlen, length_app. cbn. lia.
      * exists [], [a], todo. split; [reflexivity|]. split; [reflexivity|].
        now left.
    + exists [], [], (a :: todo). cbn. rewrite app_nil_r.
      split; [reflexivity|]. split; [reflexivity|]. now left.
Qed.

(** X16: All or nothing, on any list of labels: the batch never raises; its
    requests follow the labels in order, one each; and it returns either
    the empty sequence or one point per label, the latter only after a
    request for every label. *)
Theorem coordinates_all_or_nothing (W : providers) (labels : list json)
    (log : list call) :
  exists result visited rest,
    get_coordinates_for_waypoints W (JArr labels) log
    = (Returned result, log ++ geocode_calls visited)
    /\ labels = visited ++ rest
    /\ (result = []
        \/ (List.length result = List.length labels /\ rest = [])).
Proof.
  unfold get_coordinates_for_waypoints. destruct labels as [|a labels].
  - exists [], [], []. cbn. rewrite app_nil_r. auto.
  - cbn [truthy negb iterate].
    destruct (geocode_each_shape W (a :: labels) [] log)
      as (result & visited & rest & E & Ht & Hr).
    exists result, visited, rest. auto.
Qed.




Example coordinates_surrogate_label :
  get_coordinates_for_waypoints stub
    (JArr [JStr city_hall; JStr [55296%N]; JStr palace]) []
  = (Returned [], [Get (Geocode (JStr city_hall))]).
Proof. reflexivity. Qed.

(** ** More on the pipeline *)

Section PipelineRuns.

Variable json_loads : str -> option json.
Variable W : providers.

(** The pipeline, with the naming and detail stages run. *)
Lemma recommend_trail_run (req : TrailRequest) (log : list call) :
  recommend_trail json_loads W req log
  = let name := named W req log in
    if eqb name sentinel
    then (Returned (ErrorResult error_message),
          log ++ [Generate (name_prompt req)])
    else
      match get_trail_waypoints_from_gemini json_loads W name
              (latitude req) (longitude req)
              ((log ++ [Generate (name_prompt req)])
               ++ [Generate (DetailPrompt name)])
      with
      | (Returned waypoints, log3) =>
          match get_coordinates_for_waypoints W waypoints log3 with
          | (Returned coords, log4) =>
              (Returned (RouteResult name coords), log4)
          | (Raised, log4) => (Raised, log4)
          end
      | (Raised, log3) => (Raised, log3)
      end.
Proof.
  unfold recommend_trail, bind, named, name_prompt.
  rewrite get_trail_name_run. cbv zeta.
  set (name := match generate_content W log _ with
               | Some text => strip text | None => sentinel end).
  destruct (eqb name sentinel); [reflexivity|].
  destruct (get_trail_detail_run json_loads W name
              (log ++ [Generate (NamePrompt (distance req) (theme req)
                                   (latitude req) (longitude req))]))
    as [detail ->].
  destruct (get_trail_waypoints_from_gemini json_loads W name _ _ _)
    as [[waypoints|] log3]; [|reflexivity].
  now destruct (get_coordinates_for_waypoints W waypoints log3)
    as [[coords|] log4].
Qed.

(** What the waypoint stage returns once the model answers its prompt
    with the text [raw]. *)
Lemma get_trail_waypoints_text (name : str) (la lo : Q) (log : list call)
    (raw : str) :
  (forall log' start,
      generate_content W log' (WaypointsPrompt name start) = Some raw) ->
  fst (get_trail_waypoints_from_gemini json_loads W name la lo log)
  = Returned match json_loads (clean_json_response raw) with
             | Some (JObj items) =>
                 match assoc k_waypoints items with
                 | Some waypoints => waypoints
                 | None => JArr []
                 end
             | _ => JArr []
             end.
Proof.
  intros Hraw.
  unfold get_trail_waypoints_from_gemini, bind, call_maps, call_model.
  cbn. rewrite Hraw.
  now destruct (json_loads (clean_json_response raw)) as [[]|].
Qed.

Lemma stage_calls_app (req : TrailRequest) (name : str) (start : json)
    (log : list call) :
  ((log ++ [Generate (name_prompt req)]) ++ [Generate (DetailPrompt name)])
  ++ [Get (ReverseGeocode (latitude req) (longitude req));
      Generate (WaypointsPrompt name start)]
  = log ++ stage_calls req name start.
Proof. unfold stage_calls. now rewrite <- !app_assoc. Qed.

End PipelineRuns.

(** X17: The calls of a request come in one order: the naming prompt; then,
    unless the name is the sentinel, the detail prompt, the reverse
    geocoding of the origin, the waypoint prompt, and the geocoding of
    labels.  Nothing else is ever called. *)
Theorem recommend_trail_call_order (json_loads : str -> option json)
    (W : providers) (req : TrailRequest) (log : list call) :
  exists start visited,
    snd (recommend_trail json_loads W req log)
    = log ++ [Generate (name_prompt req)]
    \/ snd (recommend_trail json_loads W req log)
       = log ++ stage_calls req (named W req log) start
             ++ geocode_calls visited.
Proof.
  rewrite recommend_trail_run. cbv zeta.
  set (name := named W req log).
  destruct (eqb name sentinel); [exists JNull, []; now left|].
  set (log2 := (log ++ _) ++ _).
  pose proof (get_trail_waypoints_calls json_loads W name
                (latitude req) (longitude req) log2) as E.
  unfold log2 in E at 2. rewrite stage_calls_app in E.
  set (start := start_location_of _) in E. exists start.
  destruct (get_trail_waypoints_from_gemini json_loads W name _ _ log2)
    as [[waypoints|] log3]; cbn [snd] in E; subst log3.
  - destruct (get_coordinates_log W waypoints
                (log ++ stage_calls req name start)) as [visited Ev].
    exists visited. right.
    destruct (get_coordinates_for_waypoints W waypoints _)
      as [[coords|] log4]; cbn [snd] in *; subst log4;
      now rewrite <- app_assoc.
  - exists []. right. cbn [snd geocode_calls map].
    now rewrite app_nil_r.
Qed.

(** X18: The error-shaped result has one cause: a result [{error: ...}] means
    that the naming stage returned the sentinel, the message is the fixed
    one, and the naming call was the only call. *)
Theorem recommend_trail_error_cause (json_loads : str -> option json)
    (W : providers) (req : TrailRequest) (log : list call) (e : str) :
  fst (recommend_trail json_loads W req log) = Returned (ErrorResult e) ->
  named W req log = sentinel
  /\ e = error_message
  /\ snd (recommend_trail json_loads W req log)
     = log ++ [Generate (name_prompt req)].
Proof.
  rewrite recommend_trail_run. cbv zeta.
  destruct (eqb (named W req log) sentinel) eqn:E.
  - cbn [fst snd]. intros H. injection H as <-.
    apply eqb_eq in E. auto.
  - destruct (get_trail_waypoints_from_gemini json_loads W _ _ _ _)
      as [[waypoints|] log3]; [|discriminate].
    destruct (get_coordinates_for_waypoints W waypoints log3)
      as [[coords|] log4]; discriminate.
Qed.

Lemma recommend_trail_error_cause_witness :
  named (with_name None stub) example_request [] = sentinel
  /\ error_message = error_message
  /\ snd (recommend_trail stub_loads (with_name None stub)
            example_request [])
     = [Generate (name_prompt example_request)].
Proof.
  apply (recommend_trail_error_cause stub_loads (with_name None stub)
           example_request [] error_message).
  reflexivity.
Defined.

(** X19: A waypoint answer that does not decode is not an error: the result
    carries the name and no coordinates, and no label is geocoded. *)
Theorem recommend_trail_without_waypoints (json_loads : str -> option json)
    (W : providers) (req : TrailRequest) (log : list call) (raw : str) :
  named W req log <> sentinel ->
  (forall log' start,
      generate_content W log' (WaypointsPrompt (named W req log) start)
      = Some raw) ->
  json_loads (clean_json_response raw) = None ->
  exists start,
    recommend_trail json_loads W req log
    = (Returned (RouteResult (named W req log) []),
       log ++ stage_calls req (named W req log) start).
Proof.
  intros Hne Hraw Hload. rewrite recommend_trail_run. cbv zeta.
  set (name := named W req log) in *.
  destruct (eqb name sentinel) eqn:E; [now apply eqb_eq in E|].
  set (log2 := (log ++ _) ++ _).
  pose proof (get_trail_waypoints_calls json_loads W name
                (latitude req) (longitude req) log2) as Ec.
  unfold log2 in Ec at 2. rewrite stage_calls_app in Ec.
  pose proof (get_trail_waypoints_text json_loads W name
                (latitude req) (longitude req) log2 raw Hraw) as Ef.
  rewrite Hload in Ef.
  destruct (get_trail_waypoints_from_gemini json_loads W name _ _ log2)
    as [out log3]. cbn [fst snd] in *. subst out log3.
  eexists. reflexivity.
Qed.

Lemma recommend_trail_without_waypoints_witness :
  exists start,
    recommend_trail stub_loads
      (override (on_waypoints (Some (py "Sorry, no idea."))) keep stub)
      example_request []
    = (Returned (RouteResult stub_name []),
       stage_calls example_request stub_name start).
Proof.
  apply (recommend_trail_without_waypoints stub_loads
           (override (on_waypoints (Some (py "Sorry, no idea."))) keep stub)
           example_request [] (py "Sorry, no idea.")).
  - vm_compute. discriminate.
  - reflexivity.
  - vm_compute. reflexivity.
Defined.

(** X20: A label that the geocoder does not resolve is not an error either:
    the result carries the name and no coordinates. *)
Theorem recommend_trail_unresolved_label (json_loads : str -> option json)
    (W : providers) (req : TrailRequest) (log : list call) (raw : str)
    (items : list (str * json)) (pre post : list json) (l : json) :
  named W req log <> sentinel ->
  (forall log' start,
      generate_content W log' (WaypointsPrompt (named W req log) start)
      = Some raw) ->
  json_loads (clean_json_response raw) = Some (JObj items) ->
  assoc k_waypoints items = Some (JArr (pre ++ l :: post)) ->
  (forall log', geocode_failed (requests_get W log' (Geocode l))) ->
  fst (recommend_trail json_loads W req log)
  = Returned (RouteResult (named W req log) []).
Proof.
  intros Hne Hraw Hload Hget Hfail. rewrite recommend_trail_run. cbv zeta.
  set (name := named W req log) in *.
  destruct (eqb name sentinel) eqn:E; [now apply eqb_eq in E|].
  set (log2 := (log ++ _) ++ _).
  pose proof (get_trail_waypoints_text json_loads W name
                (latitude req) (longitude req) log2 raw Hraw) as Ef.
  rewrite Hload, Hget in Ef.
  destruct (get_trail_waypoints_from_gemini json_loads W name _ _ log2)
    as [out log3]. cbn [fst] in Ef. subst out.
  unfold get_coordinates_for_waypoints.
  replace (truthy (JArr (pre ++ l :: post))) with true by (now destruct pre).
  cbn [negb iterate].
  destruct (geocode_each_fail_fast W pre l post [] log3 (Hfail _))
    as (visited & rest & -> & _).
  reflexivity.
Qed.

Lemma recommend_trail_unresolved_label_witness :
  fst (recommend_trail stub_loads (with_unknown palace stub)
         example_request [])
  = Returned (RouteResult stub_name []).
Proof.
  apply (recommend_trail_unresolved_label stub_loads
           (with_unknown palace stub) example_request [] waypoints_raw
           [(k_waypoints, JArr stub_labels)]
           [JStr city_hall] [JStr city_hall] (JStr palace)).
  - vm_compute. discriminate.
  - reflexivity.
  - vm_compute. reflexivity.
  - reflexivity.
  - intros log'. right. eexists. split; [reflexivity|].
    vm_compute. discriminate.
Defined.

(** X21: With a name in hand and no text from the model for the waypoint
    prompt, the pipeline raises: the request ends in an exception, not in
    a result. *)
Theorem recommend_trail_no_waypoint_text (json_loads : str -> option json)
    (W : providers) (req : TrailRequest) (log : list call) :
  named W req log <> sentinel ->
  (forall log' start,
      generate_content W log' (WaypointsPrompt (named W req log) start)
      = None) ->
  fst (recommend_trail json_loads W req log) = Raised.
Proof.
  intros Hne Hnone. rewrite recommend_trail_run. cbv zeta.
  destruct (eqb (named W req log) sentinel) eqn:E;
    [now apply eqb_eq in E|].
  pose proof (get_trail_waypoints_raises json_loads W (named W req log)
                (latitude req) (longitude req)
                ((log ++ [Generate (name_prompt req)])
                 ++ [Generate (DetailPrompt (named W req log))]) Hnone)
    as Ef.
  destruct (get_trail_waypoints_from_gemini json_loads W _ _ _ _)
    as [out log3]. cbn [fst] in Ef. now subst out.
Qed.

Lemma recommend_trail_no_waypoint_text_witness :
  fst (recommend_trail stub_loads (with_no_waypoints stub)
         example_request []) = Raised.
Proof.
  apply (recommend_trail_no_waypoint_text stub_loads
           (with_no_waypoints stub) example_request []).
  - vm_compute. discriminate.
  - reflexivity.
Defined.

(** X22: A [waypoints] entry that is true in a test and cannot be iterated
    (a number other than zero, the constant true) makes the pipeline
    raise before any label is geocoded. *)
Theorem recommend_trail_waypoints_not_iterable
    (json_loads : str -> option json) (W : providers) (req : TrailRequest)
    (log : list call) (raw : str) (items : list (str * json))
    (waypoints : json) :
  named W req log <> sentinel ->
  (forall log' start,
      generate_content W log' (WaypointsPrompt (named W req log) start)
      = Some raw) ->
  json_loads (clean_json_response raw) = Some (JObj items) ->
  assoc k_waypoints items = Some waypoints ->
  truthy waypoints = true ->
  iterate waypoints = None ->
  exists start,
    recommend_trail json_loads W req log
    = (Raised, log ++ stage_calls req (named W req log) start).
Proof.
  intros Hne Hraw Hload Hget Htrue Hiter.
  rewrite recommend_trail_run. cbv zeta.
  set (name := named W req log) in *.
  destruct (eqb name sentinel) eqn:E; [now apply eqb_eq in E|].
  set (log2 := (log ++ _) ++ _).
  pose proof (get_trail_waypoints_calls json_loads W name
                (latitude req) (longitude req) log2) as Ec.
  unfold log2 in Ec at 2. rewrite stage_calls_app in Ec.
  pose proof (get_trail_waypoints_text json_loads W name
                (latitude req) (longitude req) log2 raw Hraw) as Ef.
  rewrite Hload, Hget in Ef.
  destruct (get_trail_waypoints_from_gemini json_loads W name _ _ log2)
    as [out log3]. cbn [fst snd] in *. subst out log3.
  unfold get_coordinates_for_waypoints. rewrite Htrue, Hiter.
  eexists. reflexivity.
Qed.

Lemma recommend_trail_waypoints_not_iterable_witness :
  exists start,
    recommend_trail number_loads
      (override (on_waypoints (Some number_raw)) keep stub)
      example_request []
    = (Raised, stage_calls example_request stub_name start).
Proof.
  apply (recommend_trail_waypoints_not_iterable number_loads
           (override (on_waypoints (Some number_raw)) keep stub)
           example_request [] number_raw
           [(k_waypoints, JNum 5)] (JNum 5)).
  - vm_compute. discriminate.
  - reflexivity.
  - vm_compute. reflexivity.
  - reflexivity.
  - reflexivity.
  - reflexivity.
Defined.

Lemma waypoints_stage_agree (json_loads : str -> option json)
    (W W' : providers) (name : str) (la lo : Q) (log log' : list call) :
  same_but_detail W W' ->
  fst (get_trail_waypoints_from_gemini json_loads W name la lo log)
  = fst (get_trail_waypoints_from_gemini json_loads W' name la lo log').
Proof.
  intros [Hgen Hget].
  unfold get_trail_waypoints_from_gemini, bind, call_maps, call_model.
  cbn. rewrite (Hget log log' (ReverseGeocode la lo)).
  rewrite (Hgen (log ++ [Get (ReverseGeocode la lo)])
             (log' ++ [Get (ReverseGeocode la lo)])) by discriminate.
  destruct (generate_content W' _ _) as [raw|]; [|reflexivity].
  now destruct (json_loads (clean_json_response raw)) as [[]|].
Qed.

Lemma geocode_each_agree (W W' : providers) (todo : list json)
    (coordinates : list coordinate) (log log' : list call) :
  same_but_detail W W' ->
  fst (geocode_each W todo coordinates log)
  = fst (geocode_each W' todo coordinates log').
Proof.
  intros [Hgen Hget]. revert coordinates log log'.
  induction todo as [|a todo IH]; intros coordinates log log';
    [reflexivity|].
  cbn [geocode_each]. destruct (prints a); [|reflexivity].
  unfold bind, call_maps.
  rewrite (Hget log log' (Geocode a)).
  destruct (geocoded (requests_get W' log' (Geocode a))); [apply IH|].
  reflexivity.
Qed.

(** X23: The detail stage leaves no trace in the result: two providers that
    differ only in what they answer to the detail prompt give the same
    outcome. *)
Theorem recommend_trail_ignores_detail (json_loads : str -> option json)
    (W W' : providers) (req : TrailRequest) (log log' : list call) :
  same_but_detail W W' ->
  fst (recommend_trail json_loads W req log)
  = fst (recommend_trail json_loads W' req log').
Proof.
  intros Hsame. rewrite !recommend_trail_run. cbv zeta.
  assert (Hname : named W req log = named W' req log').
  { unfold named, name_prompt.
    now rewrite (proj1 Hsame log log') by discriminate. }
  rewrite <- Hname. set (name := named W req log).
  destruct (eqb name sentinel); [reflexivity|].
  pose proof (waypoints_stage_agree json_loads W W' name
                (latitude req) (longitude req)
                ((log ++ [Generate (name_prompt req)])
                 ++ [Generate (DetailPrompt name)])
                ((log' ++ [Generate (name_prompt req)])
                 ++ [Generate (DetailPrompt name)]) Hsame) as Ew.
  destruct (get_trail_waypoints_from_gemini json_loads W name _ _ _)
    as [out log3].
  destruct (get_trail_waypoints_from_gemini json_loads W' name _ _ _)
    as [out' log3'].
  cbn [fst] in Ew. subst out'. destruct out as [waypoints|]; [|reflexivity].
  assert (Ec : fst (get_coordinates_for_waypoints W waypoints log3)
               = fst (get_coordinates_for_waypoints W' waypoints log3')).
  { unfold get_coordinates_for_waypoints.
    destruct (truthy waypoints); [|reflexivity]. cbn [negb].
    destruct (iterate waypoints); [|reflexivity].
    now apply geocode_each_agree. }
  destruct (get_coordinates_for_waypoints W waypoints log3) as [c log4].
  destruct (get_coordinates_for_waypoints W' waypoints log3') as [c' log4'].
  cbn [fst] in Ec. subst c'. now destruct c.
Qed.

Lemma recommend_trail_ignores_detail_witness :
  fst (recommend_trail stub_loads stub example_request [])
  = fst (recommend_trail stub_loads (override (on_detail None) keep stub)
           example_request []).
Proof.
  apply (recommend_trail_ignores_detail stub_loads stub
           (override (on_detail None) keep stub) example_request [] []).
  split.
  - intros log log' p Hp. destruct p; try reflexivity. now elim (Hp trail_name).
  - reflexivity.
Defined.

(** ** The setup script *)







(** X27: With a variable missing and the input at its end, the script raises
    and [.env] is left as it was. *)
Theorem setup_end_of_input (e : Setup.environ) (w : Setup.world) :
  Setup.unset (Setup.GOOGLE_API_KEY e) = true
  \/ Setup.unset (Setup.GOOGLE_MAPS_API_KEY e) = true ->
  Setup.stdin w = [] ->
  Setup.setup_environment e w = (Raised, w).
Proof.
  intros H Hin. unfold Setup.setup_environment, Setup.key_or_input.
  destruct (Setup.GOOGLE_API_KEY e) as [g|] eqn:Eg;
    destruct (Setup.GOOGLE_MAPS_API_KEY e) as [m|] eqn:Em;
    cbn [Setup.unset] in *;
    repeat match goal with
           | |- context [eqb ?k []] => destruct (eqb k []) eqn:?
           end;
    unfold Setup.input; rewrite ?Hin; try reflexivity;
    destruct H; discriminate.
Qed.

Lemma setup_end_of_input_witness :
  Setup.setup_environment
    {| Setup.GOOGLE_API_KEY := Some (py "AIza-gemini");
       Setup.GOOGLE_MAPS_API_KEY := None |}
    {| Setup.stdin := []; Setup.dotenv := Some (py "OLD=1") |}
  = (Raised, {| Setup.stdin := []; Setup.dotenv := Some (py "OLD=1") |}).
Proof.
  apply (setup_end_of_input
           {| Setup.GOOGLE_API_KEY := Some (py "AIza-gemini");
              Setup.GOOGLE_MAPS_API_KEY := None |}
           {| Setup.stdin := []; Setup.dotenv := Some (py "OLD=1") |}).
  - right. reflexivity.
  - reflexivity.
Defined.
